(** * Arke preprocessing orchestrator: task identity, the TIFF conversion
      phase and the HTTP callback route

    A shallow embedding of
    - [src/utils/task-id.ts]          ([simpleHash], [generateTaskId]),
    - [src/phases/tiff-conversion.ts] ([discover], [executeBatch],
      [spawnFlyMachine], [handleCallback], [isTiff], [countProcessing]),
    - the worker entry point          ([fetch], the HTTP routes),
    and the properties of them that the specification states.

    Conventions.  A JavaScript string is a [string]: its characters are the
    code units that [charCodeAt] returns (here below 256).  A JavaScript
    number that holds an integer is a [Z]; every intermediate value of the
    code stays far below 2^53, so the arithmetic on doubles is exact and only
    the 32-bit conversions of [<<] and [&] wrap.  [new Date().toISOString()]
    reads a clock that is passed in.  [console.log] is not modelled. *)

From Stdlib Require Import ZArith List String Ascii Bool Lia Arith.
Import ListNotations.

Local Open Scope string_scope.
Local Open Scope Z_scope.

(* ------------------------------------------------------------------ *)
(** ** JavaScript primitives used by the sources *)

Module JS.

(** [ToInt32]: the value modulo 2^32 = 4294967296, read as a signed
    32-bit integer (2^31 = 2147483648). *)
Definition to_int32 (z : Z) : Z := (z + 2147483648) mod 4294967296 - 2147483648.

(** [x << k] for [0 <= k < 32]. *)
Definition shl (x k : Z) : Z := to_int32 (Z.shiftl (to_int32 x) k).

(** [x & y]. *)
Definition band (x y : Z) : Z := to_int32 (Z.land (to_int32 x) (to_int32 y)).

(** [str.charCodeAt(i)] for the character at [i]. *)
Definition charCode (c : ascii) : Z := Z.of_N (N_of_ascii c).

(** The digit characters of [Number.prototype.toString(radix)]:
    [0-9] then [a-z]. *)
Definition digit_char (d : Z) : ascii :=
  if d <? 10 then ascii_of_N (Z.to_N (48 + d)) else ascii_of_N (Z.to_N (87 + d)).

Fixpoint digits36 (fuel : nat) (n : Z) (acc : string) : string :=
  match fuel with
  | O => acc
  | S fuel' =>
      let acc' := String (digit_char (n mod 36)) acc in
      if n / 36 =? 0 then acc' else digits36 fuel' (n / 36) acc'
  end.

(** [n.toString(36)] for an integer [n >= 0].  One digit is produced per
    division by 36, so [1 + log2 n] rounds are more than enough. *)
Definition toString36 (n : Z) : string :=
  digits36 (S (Z.to_nat (Z.log2 n))) n "".

(** [arr.slice(0, e)]: a negative [e] counts from the end of the array. *)
Definition slice_end (len e : Z) : Z :=
  if e <? 0 then Z.max (len + e) 0 else Z.min e len.

Definition slice0 {A} (l : list A) (e : Z) : list A :=
  firstn (Z.to_nat (slice_end (Z.of_nat (List.length l)) e)) l.

(** [s.split(sep)] for a one-character separator; [cur] is the piece being
    read.  The empty string splits into one empty piece. *)
Fixpoint split_from (sep : ascii) (s cur : string) : list string :=
  match s with
  | EmptyString => [cur]
  | String c rest =>
      if Ascii.eqb c sep then cur :: split_from sep rest ""
      else split_from sep rest (cur ++ String c "")
  end.

Definition split (s : string) (sep : ascii) : list string := split_from sep s "".

(** [s.startsWith(p)]. *)
Definition startsWith (s p : string) : bool := String.prefix p s.

(** [!s] for [s] a string or [undefined] (an index past the end of an
    array): true for [undefined] and for the empty string. *)
Definition falsy (s : option string) : bool :=
  match s with
  | None => true
  | Some v => String.eqb v ""
  end.

End JS.

(* ------------------------------------------------------------------ *)
(** ** Task ids ([src/utils/task-id.ts]) *)

Module TaskId.

(** The body of the [for] loop of [simpleHash], for one character. *)
Definition hash_step (hash : Z) (c : ascii) : Z :=
  let char := JS.charCode c in
  let hash := (JS.shl hash 5 - hash) + char in
  JS.band hash hash.

(** The loop over [str], from the running value [hash]. *)
Fixpoint hash_loop (str : string) (hash : Z) : Z :=
  match str with
  | EmptyString => hash
  | String c rest => hash_loop rest (hash_step hash c)
  end.

Definition simpleHash (str : string) : string :=
  let hash := hash_loop str 0 in
  JS.toString36 (Z.abs hash).

Definition generateTaskId (batchId r2Key : string) : string :=
  let hash := simpleHash r2Key in
  batchId ++ "_tiff_" ++ hash.

End TaskId.

(* ------------------------------------------------------------------ *)
(** ** Queue messages (the [QueueMessage] declarations) *)

Module Queue.

Record ProcessingConfig := {
  ocr : bool;
  describe : bool;
  pinax : bool }.

Record QueueFileInfo := {
  r2_key : string;
  logical_path : string;
  file_name : string;
  file_size : Z;
  content_type : string;
  cid : option string }.

Record DirectoryGroup := {
  directory_path : string;
  processing_config : ProcessingConfig;
  file_count : Z;
  dir_total_bytes : Z;
  files : list QueueFileInfo }.

Record QueueMessage := {
  batch_id : string;
  r2_prefix : string;
  uploader : string;
  root_path : string;
  parent_pi : option string;
  total_files : Z;
  total_bytes : Z;
  uploaded_at : string;
  finalized_at : string;
  directories : list DirectoryGroup }.

End Queue.

(* ------------------------------------------------------------------ *)
(** ** Tasks and batch state

    [types/state.ts] and [types/config.ts] are imported by the sources but
    are not among them: the records below hold the fields that the phase
    reads and writes, with the batch fields of the data model. *)

Inductive TaskStatus := pending | processing | completed | failed.

Inductive BatchStatus := TIFF_CONVERSION | DONE | ERROR.

Definition TaskStatus_eqb (a b : TaskStatus) : bool :=
  match a, b with
  | pending, pending | processing, processing
  | completed, completed | failed, failed => true
  | _, _ => false
  end.

Module Task.

Record t := mk {
  task_id : string;
  status : TaskStatus;
  input_r2_key : string;
  input_file_name : string;
  retry_count : Z;
  started_at : option string;
  fly_machine_id : option string;
  output_r2_key : option string;
  output_file_name : option string;
  output_file_size : option Z;
  completed_at : option string;
  error : option string }.

(** Assignments to one property of a task object. *)
Definition set_status (v : TaskStatus) (x : t) : t :=
  mk (task_id x) v (input_r2_key x) (input_file_name x) (retry_count x)
     (started_at x) (fly_machine_id x) (output_r2_key x) (output_file_name x)
     (output_file_size x) (completed_at x) (error x).

Definition set_started_at (v : option string) (x : t) : t :=
  mk (task_id x) (status x) (input_r2_key x) (input_file_name x) (retry_count x)
     v (fly_machine_id x) (output_r2_key x) (output_file_name x)
     (output_file_size x) (completed_at x) (error x).

Definition set_fly_machine_id (v : option string) (x : t) : t :=
  mk (task_id x) (status x) (input_r2_key x) (input_file_name x) (retry_count x)
     (started_at x) v (output_r2_key x) (output_file_name x)
     (output_file_size x) (completed_at x) (error x).

Definition set_output (k n : option string) (sz : option Z) (x : t) : t :=
  mk (task_id x) (status x) (input_r2_key x) (input_file_name x) (retry_count x)
     (started_at x) (fly_machine_id x) k n sz (completed_at x) (error x).

Definition set_completed_at (v : option string) (x : t) : t :=
  mk (task_id x) (status x) (input_r2_key x) (input_file_name x) (retry_count x)
     (started_at x) (fly_machine_id x) (output_r2_key x) (output_file_name x)
     (output_file_size x) v (error x).

Definition set_error (v : option string) (x : t) : t :=
  mk (task_id x) (status x) (input_r2_key x) (input_file_name x) (retry_count x)
     (started_at x) (fly_machine_id x) (output_r2_key x) (output_file_name x)
     (output_file_size x) (completed_at x) v.

End Task.

(** [Record<string, Task>]: the entries in the order in which the object's
    properties are enumerated (for keys that are not array indices, the
    order in which they were added). *)
Definition TaskMap := list (string * Task.t).

(** A task object is identified by the place of its entry: two variables
    that hold the same [ref] hold the same object, and an assignment through
    one is seen through the other. *)
Definition ref := nat.

Module Store.

Definition get (o : TaskMap) (r : ref) : option Task.t :=
  option_map snd (nth_error o r).

(** An assignment to properties of the object [r]. *)
Fixpoint update (o : TaskMap) (r : ref) (f : Task.t -> Task.t) : TaskMap :=
  match o, r with
  | [], _ => []
  | (k, x) :: o', O => (k, f x) :: o'
  | e :: o', S r' => e :: update o' r' f
  end.

(** [Object.values(o)]: the objects, in enumeration order. *)
Definition values (o : TaskMap) : list ref := seq 0 (List.length o).

(** [o[key]]: the object stored under [key], if any. *)
Fixpoint lookup_from (o : TaskMap) (key : string) (r : ref) : option ref :=
  match o with
  | [] => None
  | (k, _) :: o' => if String.eqb k key then Some r else lookup_from o' key (S r)
  end.

Definition lookup (o : TaskMap) (key : string) : option ref := lookup_from o key 0%nat.

(** [t.status === s] for the object [r]. *)
Definition status_is (o : TaskMap) (s : TaskStatus) (r : ref) : bool :=
  match get o r with
  | Some x => TaskStatus_eqb (Task.status x) s
  | None => false
  end.

End Store.

Module BatchState.

Record t := mk {
  batch_id : string;
  status : BatchStatus;
  queue_message : Queue.QueueMessage;
  current_phase : BatchStatus;
  current_phase_tasks : TaskMap;
  tasks_total : Z;
  tasks_completed : Z;
  tasks_failed : Z;
  started_at : string;
  updated_at : string;
  completed_at : option string;
  error : option string;
  retry_count : Z }.

Definition set_tasks (v : TaskMap) (s : t) : t :=
  mk (batch_id s) (status s) (queue_message s) (current_phase s) v
     (tasks_total s) (tasks_completed s) (tasks_failed s) (started_at s)
     (updated_at s) (completed_at s) (error s) (retry_count s).

Definition set_tasks_completed (v : Z) (s : t) : t :=
  mk (batch_id s) (status s) (queue_message s) (current_phase s)
     (current_phase_tasks s) (tasks_total s) v (tasks_failed s) (started_at s)
     (updated_at s) (completed_at s) (error s) (retry_count s).

Definition set_tasks_failed (v : Z) (s : t) : t :=
  mk (batch_id s) (status s) (queue_message s) (current_phase s)
     (current_phase_tasks s) (tasks_total s) (tasks_completed s) v (started_at s)
     (updated_at s) (completed_at s) (error s) (retry_count s).

End BatchState.

(** The settings and secrets that the phase reads. *)
Record Config := {
  FLY_WORKER_IMAGE : string;
  FLY_APP_NAME : string;
  FLY_REGION : string;
  ORCHESTRATOR_URL : string;
  BATCH_SIZE_TIFF_CONVERSION : Z }.

Record Env := {
  R2_ACCOUNT_ID : string;
  R2_ACCESS_KEY_ID : string;
  R2_SECRET_ACCESS_KEY : string;
  R2_BUCKET : option string;
  FLY_API_TOKEN : string }.

(** The performance metrics of a callback. *)
Record Performance := {
  total_time_ms : Z;
  download_time_ms : Z;
  conversion_time_ms : Z;
  upload_time_ms : Z }.

Module Callback.

(** [TiffCallbackResult] ([src/types/callback.ts]).  The status is declared
    as ['success' | 'error']; the payload is the parsed body of a request,
    so the record holds the string that arrived. *)
Record TiffCallbackResult := {
  task_id : string;
  batch_id : string;
  status : string;
  output_r2_key : option string;
  output_file_name : option string;
  output_file_size : option Z;
  performance : option Performance;
  error : option string }.

End Callback.

(* ------------------------------------------------------------------ *)
(** ** The regular expression of [isTiff] *)

Module Regex.

(** The pieces that [/\.tiff?$/i] is made of. *)
Inductive atom :=
| Lit (c : ascii)       (* one character *)
| Opt (c : ascii)       (* [c?], greedy *)
| EndOfInput.           (* [$], without the [m] flag *)

(** Canonicalisation under the [i] flag (no [u] flag): a character is
    compared by its upper-case form.  Only [a-z] change among the code
    units below 128, and a code unit from 128 on never canonicalises to
    one below 128, so it never equals a canonical ASCII character. *)
Definition canonicalize (c : ascii) : ascii :=
  let n := N_of_ascii c in
  if ((97 <=? n) && (n <=? 122))%N then ascii_of_N (n - 32) else c.

Definition char_matches (p c : ascii) : bool :=
  Ascii.eqb (canonicalize p) (canonicalize c).

(** Does the pattern match at the start of [s]?  An optional character is
    tried first and given up on failure. *)
Fixpoint match_here (p : list atom) (s : string) : bool :=
  match p with
  | [] => true
  | Lit c :: p' =>
      match s with
      | String d s' => char_matches c d && match_here p' s'
      | EmptyString => false
      end
  | Opt c :: p' =>
      match s with
      | String d s' => (char_matches c d && match_here p' s') || match_here p' s
      | EmptyString => match_here p' s
      end
  | EndOfInput :: p' =>
      match s with
      | EmptyString => match_here p' s
      | String _ _ => false
      end
  end.

(** [re.test(s)]: the pattern is tried at every position, left to right. *)
Fixpoint test (p : list atom) (s : string) : bool :=
  match_here p s ||
  match s with
  | EmptyString => false
  | String _ s' => test p s'
  end.

End Regex.

(* ------------------------------------------------------------------ *)
(** ** The Fly machines API, as the phase sees it *)

Module Fly.

(** The request of [spawnFlyMachine]: the URL, the bearer token and the
    fields of [machineConfig]. *)
Record MachineRequest := {
  url : string;
  authorization : string;
  name : string;
  image : string;
  TASK_ID : string;
  BATCH_ID : string;
  INPUT_R2_KEY : string;
  R2_ACCOUNT_ID : string;
  R2_ACCESS_KEY_ID : string;
  R2_SECRET_ACCESS_KEY : string;
  R2_BUCKET : string;
  CALLBACK_URL : string;
  auto_destroy : bool;
  restart_policy : string;
  memory_mb : Z;
  cpus : Z;
  cpu_kind : string;
  region : string }.

(** What [fetch] gives back: a rejection, or a response with [ok],
    [status], its text, and what [response.json()] yields ([None] when it
    throws, else the [id] property of the parsed value). *)
Inductive FetchOutcome :=
| NetworkError (reason : string)
| Response (ok : bool) (status : Z) (text : string) (json : option (option string)).

(** The answer of the API to the [i]-th request of a wake. *)
Definition Api := nat -> MachineRequest -> FetchOutcome.

End Fly.

(** Why a spawn promise was rejected. *)
Inductive SpawnError :=
| NoSuchTask
| FetchFailed (reason : string)
| FlyApiError (status : Z) (errorText : string)
| MalformedBody.

(** An entry of [Promise.allSettled]'s result. *)
Inductive Settled :=
| fulfilled
| rejected (reason : SpawnError).

(* ------------------------------------------------------------------ *)
(** ** The TIFF conversion phase ([src/phases/tiff-conversion.ts]) *)

Module TiffConversionPhase.

Definition name : BatchStatus := TIFF_CONVERSION.

(** [/\.tiff?$/i] *)
Definition tiff_pattern : list Regex.atom :=
  [Regex.Lit "."; Regex.Lit "t"; Regex.Lit "i"; Regex.Lit "f";
   Regex.Opt "f"; Regex.EndOfInput]%char.

Definition isTiff (fileName : string) : bool :=
  Regex.test tiff_pattern fileName.

(** The task literal built in [discover]; the properties it leaves out
    are [undefined]. *)
Definition new_task (batch_id : string) (file : Queue.QueueFileInfo) : Task.t :=
  {| Task.task_id := TaskId.generateTaskId batch_id (Queue.r2_key file);
     Task.status := pending;
     Task.input_r2_key := Queue.r2_key file;
     Task.input_file_name := Queue.file_name file;
     Task.retry_count := 0;
     Task.started_at := None;
     Task.fly_machine_id := None;
     Task.output_r2_key := None;
     Task.output_file_name := None;
     Task.output_file_size := None;
     Task.completed_at := None;
     Task.error := None |}.

(** The two nested [for] loops, each [push] appending to [tasks]. *)
Definition discover (queueMessage : Queue.QueueMessage) : list Task.t :=
  fold_left
    (fun tasks directory =>
       fold_left
         (fun tasks file =>
            if isTiff (Queue.file_name file)
            then (tasks ++ [new_task (Queue.batch_id queueMessage) file])%list
            else tasks)
         (Queue.files directory) tasks)
    (Queue.directories queueMessage) [].

(** [countProcessing] *)
Definition countProcessing (state : BatchState.t) : Z :=
  let o := BatchState.current_phase_tasks state in
  Z.of_nat (List.length (filter (Store.status_is o processing) (Store.values o))).

Definition machineConfig (x : Task.t) (state : BatchState.t)
    (config : Config) (env : Env) : Fly.MachineRequest :=
  {| Fly.url := "https://api.machines.dev/v1/apps/" ++ FLY_APP_NAME config ++ "/machines";
     Fly.authorization := "Bearer " ++ FLY_API_TOKEN env;
     Fly.name := "tiff-" ++ Task.task_id x;
     Fly.image := FLY_WORKER_IMAGE config;
     Fly.TASK_ID := Task.task_id x;
     Fly.BATCH_ID := BatchState.batch_id state;
     Fly.INPUT_R2_KEY := Task.input_r2_key x;
     Fly.R2_ACCOUNT_ID := R2_ACCOUNT_ID env;
     Fly.R2_ACCESS_KEY_ID := R2_ACCESS_KEY_ID env;
     Fly.R2_SECRET_ACCESS_KEY := R2_SECRET_ACCESS_KEY env;
     Fly.R2_BUCKET :=
       if JS.falsy (R2_BUCKET env) then "arke-staging"
       else match R2_BUCKET env with Some b => b | None => "" end;
     Fly.CALLBACK_URL :=
       ORCHESTRATOR_URL config ++ "/callback/" ++ BatchState.batch_id state
         ++ "/" ++ Task.task_id x;
     Fly.auto_destroy := true;
     Fly.restart_policy := "no";
     Fly.memory_mb := 1024;
     Fly.cpus := 2;
     Fly.cpu_kind := "shared";
     Fly.region := FLY_REGION config |}.

(** [spawnFlyMachine] for the task object [task] of the state, against the
    answer [answer] of the API to its request.  Returns the requests sent,
    how the promise settles, and the state (the task object gets its
    [fly_machine_id] when the response is read). *)
Definition spawnFlyMachine (task : ref) (state : BatchState.t)
    (config : Config) (env : Env) (answer : Fly.MachineRequest -> Fly.FetchOutcome)
  : list Fly.MachineRequest * Settled * BatchState.t :=
  let o := BatchState.current_phase_tasks state in
  match Store.get o task with
  | None => ([], rejected NoSuchTask, state)
  | Some x =>
      let request := machineConfig x state config env in
      match answer request with
      | Fly.NetworkError reason => ([request], rejected (FetchFailed reason), state)
      | Fly.Response ok status errorText json =>
          if negb ok then ([request], rejected (FlyApiError status errorText), state)
          else
            match json with
            | None => ([request], rejected MalformedBody, state)
            | Some id =>
                ([request], fulfilled,
                 BatchState.set_tasks
                   (Store.update o task (Task.set_fly_machine_id id)) state)
            end
      end
  end.

(** [Promise.allSettled(pendingTasks.map(task => this.spawnFlyMachine(...)))]:
    the requests go out in the order of [pendingTasks]; each promise
    writes to its own task object only, so the order in which the answers
    arrive does not show in the state. *)
Fixpoint allSettled (pendingTasks : list ref) (i : nat) (state : BatchState.t)
    (config : Config) (env : Env) (api : Fly.Api)
  : list Fly.MachineRequest * list Settled * BatchState.t :=
  match pendingTasks with
  | [] => ([], [], state)
  | task :: rest =>
      let '(sent, result, state1) := spawnFlyMachine task state config env (api i) in
      let '(sent', results, state2) := allSettled rest (S i) state1 config env api in
      ((sent ++ sent')%list, result :: results, state2)
  end.

(** The loop that marks the spawned tasks, from index [i]. *)
Fixpoint mark_spawned (pendingTasks : list ref) (spawnResults : list Settled)
    (i : nat) (clock : nat -> string) (o : TaskMap) : TaskMap :=
  match pendingTasks, spawnResults with
  | task :: tasks, result :: results =>
      let o' :=
        match result with
        | fulfilled =>
            Store.update o task
              (fun x => Task.set_started_at (Some (clock i))
                          (Task.set_status processing x))
        | rejected _ => o
        end in
      mark_spawned tasks results (S i) clock o'
  | _, _ => o
  end.

(** [pendingTasks] of [executeBatch]. *)
Definition pendingTasks (state : BatchState.t) (config : Config) : list ref :=
  let o := BatchState.current_phase_tasks state in
  JS.slice0 (filter (Store.status_is o pending) (Store.values o))
            (BATCH_SIZE_TIFF_CONVERSION config).

Definition allDone (state : BatchState.t) : bool :=
  let o := BatchState.current_phase_tasks state in
  forallb (fun r => Store.status_is o completed r || Store.status_is o failed r)
          (Store.values o).

(** What a call of [executeBatch] does: the boolean it resolves to, the
    state it leaves, and the spawn requests it sent. *)
Record Outcome := {
  more_work : bool;
  state_after : BatchState.t;
  requests : list Fly.MachineRequest }.

Definition executeBatch (state : BatchState.t) (config : Config) (env : Env)
    (api : Fly.Api) (clock : nat -> string) : Outcome :=
  let pendingTasks := pendingTasks state config in
  if (List.length pendingTasks =? 0)%nat then
    if allDone state then
      {| more_work := false; state_after := state; requests := [] |}
    else
      {| more_work := true; state_after := state; requests := [] |}
  else
    let '(sent, spawnResults, state1) := allSettled pendingTasks 0 state config env api in
    let o := mark_spawned pendingTasks spawnResults 0 clock
               (BatchState.current_phase_tasks state1) in
    {| more_work := true;
       state_after := BatchState.set_tasks o state1;
       requests := sent |}.

(** [handleCallback]: the assignments to [task] and to [state], at the
    clock reading [now]. *)
Definition handleCallback (task : Task.t) (result : Callback.TiffCallbackResult)
    (state : BatchState.t) (now : string) : Task.t * BatchState.t :=
  if String.eqb (Callback.status result) "success" then
    let task :=
      Task.set_completed_at (Some now)
        (Task.set_output (Callback.output_r2_key result)
                         (Callback.output_file_name result)
                         (Callback.output_file_size result)
           (Task.set_status completed task)) in
    (task, BatchState.set_tasks_completed (BatchState.tasks_completed state + 1) state)
  else
    let task :=
      Task.set_error (Callback.error result) (Task.set_status failed task) in
    (task, BatchState.set_tasks_failed (BatchState.tasks_failed state + 1) state).

Definition getNextPhase : option BatchStatus := None.

End TiffConversionPhase.

(* ------------------------------------------------------------------ *)
(** ** The HTTP handler (the worker's [fetch]) *)

Module Worker.

(** JSON values, as far as the handler builds them. *)
#[warnings="-register-all"]
Inductive json :=
| JNull
| JBool (b : bool)
| JNum (n : Z)
| JStr (s : string)
| JObj (fields : list (string * json)).

(** A thrown [Error], with its [message]. *)
Inductive Thrown := Error (message : string).

Definition message (e : Thrown) : string := match e with Error m => m end.

(** A computation that returns or throws. *)
Inductive result (A : Type) :=
| Return (a : A)
| Throw (e : Thrown).
Arguments Return {A} a.
Arguments Throw {A} e.

(** A request: its method, [new URL(request.url).pathname], and what
    [request.json()] does with its body (the parsed value, or the
    [SyntaxError] thrown for a body that is not JSON). *)
Record Request := {
  method : string;
  pathname : string;
  json_body : result json }.

Inductive Body :=
| Null
| Text (s : string)
| Stringified (v : json).      (* [JSON.stringify(v)] *)

Record Response := {
  status : Z;
  headers : list (string * string);
  body : Body }.

Definition corsHeaders : list (string * string) :=
  [ ("Access-Control-Allow-Origin", "*");
    ("Access-Control-Allow-Methods", "GET, POST, OPTIONS");
    ("Access-Control-Allow-Headers", "Content-Type") ].

Definition jsonHeaders : list (string * string) :=
  (corsHeaders ++ [("Content-Type", "application/json")])%list.

(** The response of a Durable Object to an internal request: its status
    and what [response.json()] does. *)
Record DOResponse := {
  do_status : Z;
  do_json : result json }.

(** The Durable Object namespace [env.PREPROCESSING_DO], over the durable
    state [W] of all batches: the object is selected by the batch id
    ([idFromName]); a call returns or throws, and leaves a state. *)
Record Namespace (W : Type) := {
  handleCallback : string -> string -> json -> W -> result unit * W;
  do_fetch : string -> string -> string -> W -> result DOResponse * W }.
Arguments handleCallback {W}.
Arguments do_fetch {W}.

Section Fetch.

Context {W : Type} (PREPROCESSING_DO : Namespace W).

(** The body of the [try] block. *)
Definition route (request : Request) (now : string) (w : W) : result Response * W :=
  if String.eqb (pathname request) "/health" then
    (Return {| status := 200; headers := jsonHeaders;
               body := Stringified (JObj [("status", JStr "ok");
                                          ("service", JStr "arke-preprocessing-orchestrator");
                                          ("timestamp", JStr now)]) |}, w)
  else if JS.startsWith (pathname request) "/status/" then
    let batchId := nth_error (JS.split (pathname request) "/") 2 in
    if JS.falsy batchId then
      (Return {| status := 400; headers := jsonHeaders;
                 body := Stringified (JObj [("error", JStr "Missing batch ID")]) |}, w)
    else
      let batchId := match batchId with Some b => b | None => "" end in
      match do_fetch PREPROCESSING_DO batchId "GET" "https://internal/status" w with
      | (Throw e, w') => (Throw e, w')
      | (Return response, w') =>
          match do_json response with
          | Throw e => (Throw e, w')
          | Return data =>
              (Return {| status := do_status response; headers := jsonHeaders;
                         body := Stringified data |}, w')
          end
      end
  else if JS.startsWith (pathname request) "/callback/"
          && String.eqb (method request) "POST" then
    let parts := JS.split (pathname request) "/" in
    let batchId := nth_error parts 2 in
    let taskId := nth_error parts 3 in
    if JS.falsy batchId || JS.falsy taskId then
      (Return {| status := 400; headers := jsonHeaders;
                 body := Stringified (JObj [("error", JStr "Missing batch ID or task ID")]) |}, w)
    else
      let batchId := match batchId with Some b => b | None => "" end in
      let taskId := match taskId with Some t => t | None => "" end in
      match json_body request with
      | Throw e => (Throw e, w)
      | Return callbackResult =>
          match handleCallback PREPROCESSING_DO batchId taskId callbackResult w with
          | (Throw e, w') => (Throw e, w')
          | (Return _, w') =>
              (Return {| status := 200; headers := jsonHeaders;
                         body := Stringified (JObj [("ok", JBool true)]) |}, w')
          end
      end
  else if JS.startsWith (pathname request) "/admin/reset/"
          && String.eqb (method request) "POST" then
    let batchId := nth_error (JS.split (pathname request) "/") 3 in
    if JS.falsy batchId then
      (Return {| status := 400; headers := jsonHeaders;
                 body := Stringified (JObj [("error", JStr "Missing batch ID")]) |}, w)
    else
      let batchId := match batchId with Some b => b | None => "" end in
      match do_fetch PREPROCESSING_DO batchId "POST" "https://internal/reset" w with
      | (Throw e, w') => (Throw e, w')
      | (Return _, w') =>
          (Return {| status := 200; headers := jsonHeaders;
                     body := Stringified (JObj [("ok", JBool true);
                                                ("message", JStr "Batch reset")]) |}, w')
      end
  else
    (Return {| status := 404; headers := corsHeaders; body := Text "Not Found" |}, w).

(** [fetch]: the preflight answer, then the routes under [try], with the
    [catch] that turns whatever was thrown into a 500. *)
Definition fetch (request : Request) (now : string) (w : W) : Response * W :=
  if String.eqb (method request) "OPTIONS" then
    ({| status := 200; headers := corsHeaders; body := Null |}, w)
  else
    match route request now w with
    | (Return response, w') => (response, w')
    | (Throw e, w') =>
        ({| status := 500; headers := jsonHeaders;
            body := Stringified (JObj [("error", JStr (message e))]) |}, w')
    end.

End Fetch.

End Worker.

(* ------------------------------------------------------------------ *)
(** ** The notions of the specification

    These definitions follow the words of the specification; the theorems
    below compare the code with them. *)

Module Spec.

(** The tasks of a batch, in the enumeration order of the map. *)
Definition tasks (state : BatchState.t) : list Task.t :=
  map snd (BatchState.current_phase_tasks state).

(** The objects behind a list of references. *)
Definition deref (o : TaskMap) (refs : list ref) : list Task.t :=
  flat_map (fun r => match Store.get o r with Some x => [x] | None => [] end) refs.

Definition terminal (s : TaskStatus) : Prop := s = completed \/ s = failed.

Definition unfinished (s : TaskStatus) : Prop := s = pending \/ s = processing.

(** Lower case of a character ([A-Z] only) and of a string. *)
Definition to_lower (c : ascii) : ascii :=
  let n := N_of_ascii c in
  if ((65 <=? n) && (n <=? 90))%N then ascii_of_N (n + 32) else c.

Fixpoint lower (s : string) : string :=
  match s with
  | EmptyString => EmptyString
  | String c s' => String (to_lower c) (lower s')
  end.

(** [name] ends in [suffix], whatever the case of its letters. *)
Definition ends_with_ci (name suffix : string) : Prop :=
  exists stem ext, name = stem ++ ext /\ lower ext = suffix.

(** A file name that the image-conversion phase takes. *)
Definition qualifies (name : string) : Prop :=
  ends_with_ci name ".tif" \/ ends_with_ci name ".tiff".

(** The files of a message, across all its directories. *)
Definition all_files (m : Queue.QueueMessage) : list Queue.QueueFileInfo :=
  flat_map Queue.files (Queue.directories m).

(** Does the phase take this file? *)
Definition keep (file : Queue.QueueFileInfo) : bool :=
  TiffConversionPhase.isTiff (Queue.file_name file).

(** The file names and keys of a message: what task discovery reads. *)
Definition inventory (m : Queue.QueueMessage) : list (string * string) :=
  map (fun f => (Queue.file_name f, Queue.r2_key f)) (all_files m).

(** Tasks sorted by task id, in the lexicographic order of strings. *)
Fixpoint insert_by_id (x : Task.t) (l : list Task.t) : list Task.t :=
  match l with
  | [] => [x]
  | y :: l' =>
      if String.leb (Task.task_id x) (Task.task_id y) then x :: l
      else y :: insert_by_id x l'
  end.

Definition sort_by_id (l : list Task.t) : list Task.t :=
  fold_right insert_by_id [] l.

Definition is_pending (x : Task.t) : bool := TaskStatus_eqb (Task.status x) pending.

(** "The first [n] pending tasks under the lexicographic ordering of
    their task ids." *)
Definition first_pending_by_id (state : BatchState.t) (n : nat) : list Task.t :=
  firstn n (sort_by_id (filter is_pending (tasks state))).

(** "The first [n] pending tasks" in the enumeration order of the map. *)
Definition first_pending_in_order (state : BatchState.t) (n : nat) : list Task.t :=
  firstn n (filter is_pending (tasks state)).

(** The value of the polynomial [c0*31^(n-1) + ... + c(n-1)] over the
    character codes of [str], continued from [acc], in unbounded
    arithmetic. *)
Fixpoint poly31 (str : string) (acc : Z) : Z :=
  match str with
  | EmptyString => acc
  | String c rest => poly31 rest (31 * acc + JS.charCode c)
  end.

(** The number that a string of base-36 digits writes, continued from
    [acc]. *)
Definition digit_value (c : ascii) : Z :=
  let n := Z.of_N (N_of_ascii c) in
  if n <? 58 then n - 48 else n - 87.

Fixpoint value36 (digits : string) (acc : Z) : Z :=
  match digits with
  | EmptyString => acc
  | String c rest => value36 rest (36 * acc + digit_value c)
  end.

(** How the [k]-th spawn promise of a wake settles, for the task object
    [r] of the state at the start of the wake. *)
Definition spawn_settles (state : BatchState.t) (config : Config) (env : Env)
    (api : Fly.Api) (k : nat) (r : ref) : Settled :=
  snd (fst (TiffConversionPhase.spawnFlyMachine r state config env (api k))).

(** How a promise of [spawnFlyMachine] settles on an answer of the API:
    fulfilled when the response is [ok] and its body parses. *)
Definition settles (answer : Fly.FetchOutcome) : Settled :=
  match answer with
  | Fly.NetworkError reason => rejected (FetchFailed reason)
  | Fly.Response false status errorText _ => rejected (FlyApiError status errorText)
  | Fly.Response true _ _ None => rejected MalformedBody
  | Fly.Response true _ _ (Some _) => fulfilled
  end.

(** What the answer of the API makes of the task it is about: a spawned
    task has its machine id, is [processing] and has its start time; any
    other answer leaves the task as it is. *)
Definition after_spawn (x : Task.t) (answer : Fly.FetchOutcome) (now : string) : Task.t :=
  match answer with
  | Fly.Response true _ _ (Some id) =>
      Task.set_started_at (Some now)
        (Task.set_status processing (Task.set_fly_machine_id id x))
  | _ => x
  end.

(** The same state but for the task map. *)
Definition same_batch_fields (s s' : BatchState.t) : Prop :=
  s' = BatchState.set_tasks (BatchState.current_phase_tasks s') s.

(** Status classes of HTTP responses. *)
Definition is_4xx (r : Worker.Response) : Prop := 400 <= Worker.status r < 500.
Definition is_5xx (r : Worker.Response) : Prop := 500 <= Worker.status r < 600.

(** The path names a batch and a task: [/callback/{batch_id}/{task_id}]
    with both ids present. *)
Definition callback_path (path batch_id task_id : string) : Prop :=
  batch_id <> "" /\ task_id <> "" /\
  exists rest, JS.split path "/" = "" :: "callback" :: batch_id :: task_id :: rest.

Definition malformed_path (path : string) : Prop :=
  forall batch_id task_id, ~ callback_path path batch_id task_id.

Definition malformed_json (request : Worker.Request) : Prop :=
  exists e, Worker.json_body request = Worker.Throw e.

End Spec.

(* ------------------------------------------------------------------ *)
(** ** Concrete inputs

    The messages, states and requests at which the properties below are
    evaluated. *)

Module Examples.

Definition file (name key : string) : Queue.QueueFileInfo :=
  {| Queue.r2_key := key;
     Queue.logical_path := "/" ++ name;
     Queue.file_name := name;
     Queue.file_size := 10;
     Queue.content_type := "application/octet-stream";
     Queue.cid := None |}.

Definition directory (path : string) (files : list Queue.QueueFileInfo)
  : Queue.DirectoryGroup :=
  {| Queue.directory_path := path;
     Queue.processing_config :=
       {| Queue.ocr := true; Queue.describe := true; Queue.pinax := false |};
     Queue.file_count := Z.of_nat (List.length files);
     Queue.dir_total_bytes := 10 * Z.of_nat (List.length files);
     Queue.files := files |}.

Definition message (batch_id : string) (dirs : list Queue.DirectoryGroup)
  : Queue.QueueMessage :=
  {| Queue.batch_id := batch_id;
     Queue.r2_prefix := "s/" ++ batch_id ++ "/";
     Queue.uploader := "uploader";
     Queue.root_path := "/";
     Queue.parent_pi := None;
     Queue.total_files := 0;
     Queue.total_bytes := 0;
     Queue.uploaded_at := "2025-01-15T10:30:00.000Z";
     Queue.finalized_at := "2025-01-15T10:31:00.000Z";
     Queue.directories := dirs |}.

(** The four files of the mixed-types scenario, in one directory ... *)
Definition mixed : Queue.QueueMessage :=
  message "B1"
    [directory "/"
       [file "a.tiff" "s/B1/a.tiff"; file "b.jpg" "s/B1/b.jpg";
        file "c.TIF" "s/B1/c.TIF"; file "d.pdf" "s/B1/d.pdf"]].

(** ... and the same files in two directories. *)
Definition mixed_two_dirs : Queue.QueueMessage :=
  message "B1"
    [directory "/x" [file "a.tiff" "s/B1/a.tiff"; file "b.jpg" "s/B1/b.jpg"];
     directory "/y" [file "c.TIF" "s/B1/c.TIF"; file "d.pdf" "s/B1/d.pdf"]].

(** Two TIFF files whose keys differ and whose ids are the same. *)
Definition colliding : Queue.QueueMessage :=
  message "B1"
    [directory "/" [file "Aa.tiff" "s/B1/Aa.tiff"; file "BB.tiff" "s/B1/BB.tiff"]].

Definition task (id key name : string) (status : TaskStatus) : Task.t :=
  {| Task.task_id := id;
     Task.status := status;
     Task.input_r2_key := key;
     Task.input_file_name := name;
     Task.retry_count := 0;
     Task.started_at := None;
     Task.fly_machine_id := None;
     Task.output_r2_key := None;
     Task.output_file_name := None;
     Task.output_file_size := None;
     Task.completed_at := None;
     Task.error := None |}.

(** A batch over [mixed] with the given tasks and counters. *)
Definition batch (tasks : TaskMap) (total done failed : Z) : BatchState.t :=
  {| BatchState.batch_id := "B1";
     BatchState.status := TIFF_CONVERSION;
     BatchState.queue_message := mixed;
     BatchState.current_phase := TIFF_CONVERSION;
     BatchState.current_phase_tasks := tasks;
     BatchState.tasks_total := total;
     BatchState.tasks_completed := done;
     BatchState.tasks_failed := failed;
     BatchState.started_at := "2025-01-15T10:31:01.000Z";
     BatchState.updated_at := "2025-01-15T10:31:01.000Z";
     BatchState.completed_at := None;
     BatchState.error := None;
     BatchState.retry_count := 0 |}.

(** The tasks of [mixed], entered in the order of discovery: the id of
    [a.tiff] is [B1_tiff_f4dk12], that of [c.TIF] is [B1_tiff_e9kdya]. *)
Definition a_tiff (status : TaskStatus) : Task.t :=
  task "B1_tiff_f4dk12" "s/B1/a.tiff" "a.tiff" status.

Definition c_tif (status : TaskStatus) : Task.t :=
  task "B1_tiff_e9kdya" "s/B1/c.TIF" "c.TIF" status.

Definition two_pending : BatchState.t :=
  batch [("B1_tiff_f4dk12", a_tiff pending); ("B1_tiff_e9kdya", c_tif pending)] 2 0 0.

(** One task, spawned and waiting for its callback. *)
Definition one_processing : BatchState.t :=
  batch [("B1_tiff_f4dk12", a_tiff processing)] 1 0 0.


Definition config (batch_size : Z) : Config :=
  {| FLY_WORKER_IMAGE := "registry.fly.io/arke-tiff-worker:latest";
     FLY_APP_NAME := "arke-tiff-worker";
     FLY_REGION := "ord";
     ORCHESTRATOR_URL := "https://arke-preprocessing.workers.dev";
     BATCH_SIZE_TIFF_CONVERSION := batch_size |}.

Definition env : Env :=
  {| R2_ACCOUNT_ID := "account";
     R2_ACCESS_KEY_ID := "key";
     R2_SECRET_ACCESS_KEY := "secret";
     R2_BUCKET := None;
     FLY_API_TOKEN := "token" |}.

(** An API that creates every machine ... *)
Definition api_ok : Fly.Api :=
  fun i _ => Fly.Response true 200 "" (Some (Some "machine")).

(** ... one that answers 500 to every request ... *)
Definition api_500 : Fly.Api :=
  fun i _ => Fly.Response false 500 "internal error" None.

(** ... and one that creates a machine for the first request of a wake
    only. *)
Definition api_first_only : Fly.Api :=
  fun i _ =>
    match i with
    | O => Fly.Response true 200 "" (Some (Some "machine"))
    | S _ => Fly.Response false 500 "internal error" None
    end.

Definition clock : nat -> string := fun _ => "2025-01-15T10:31:06.000Z".

Definition callback_error : Callback.TiffCallbackResult :=
  {| Callback.task_id := "B1_tiff_f4dk12";
     Callback.batch_id := "B1";
     Callback.status := "error";
     Callback.output_r2_key := None;
     Callback.output_file_name := None;
     Callback.output_file_size := None;
     Callback.performance := None;
     Callback.error := Some "sharp failure" |}.

Definition callback_success : Callback.TiffCallbackResult :=
  {| Callback.task_id := "B1_tiff_f4dk12";
     Callback.batch_id := "B1";
     Callback.status := "success";
     Callback.output_r2_key := Some "s/B1/a.jpg";
     Callback.output_file_name := Some "a.jpg";
     Callback.output_file_size := Some 5;
     Callback.performance := None;
     Callback.error := None |}.

(** A Durable Object namespace over a log of the callbacks delivered: every
    call returns. *)
Definition logging_namespace : Worker.Namespace (list (string * string)) :=
  {| Worker.handleCallback :=
       fun batchId taskId _ log => (Worker.Return tt, (batchId, taskId) :: log);
     Worker.do_fetch :=
       fun _ _ _ log =>
         (Worker.Return {| Worker.do_status := 200;
                           Worker.do_json := Worker.Return Worker.JNull |}, log) |}.

(** A callback request with a body that is not JSON ... *)
Definition post_bad_json : Worker.Request :=
  {| Worker.method := "POST";
     Worker.pathname := "/callback/B1/B1_tiff_f4dk12";
     Worker.json_body :=
       Worker.Throw (Worker.Error "Unexpected token } in JSON at position 1") |}.

(** ... one with a JSON body ... *)
Definition post_good : Worker.Request :=
  {| Worker.method := "POST";
     Worker.pathname := "/callback/B1/B1_tiff_f4dk12";
     Worker.json_body :=
       Worker.Return (Worker.JObj [("status", Worker.JStr "success")]) |}.

(** ... and one whose path has no task id. *)
Definition post_no_task : Worker.Request :=
  {| Worker.method := "POST";
     Worker.pathname := "/callback/B1";
     Worker.json_body :=
       Worker.Return (Worker.JObj [("status", Worker.JStr "success")]) |}.

End Examples.

(* ------------------------------------------------------------------ *)
(** ** The queue consumer (the worker's [queue]) *)

Module Consumer.

(** What the consumer tells the queue about a message. *)
Inductive Disposition := ack | retry.

(** [stub.startBatch(queueMessage)] on the Durable Object with the given
    name, over the durable state [W]: it returns or throws, and leaves a
    state. *)
Definition StartBatch (W : Type) : Type :=
  string -> Queue.QueueMessage -> W -> Worker.result unit * W.

(** [queueMessage.batch_id || 'unknown'] *)
Definition batchId (queueMessage : Queue.QueueMessage) : string :=
  if JS.falsy (Some (Queue.batch_id queueMessage)) then "unknown"
  else Queue.batch_id queueMessage.

(** The [for] loop over [batch.messages]: each message is handed to the
    Durable Object named by its batch id and acknowledged; when that
    throws, the message is retried and the loop goes on. *)
Fixpoint queue {W : Type} (startBatch : StartBatch W)
    (messages : list Queue.QueueMessage) (w : W) : list Disposition * W :=
  match messages with
  | [] => ([], w)
  | queueMessage :: rest =>
      let '(disposition, w1) :=
        match startBatch (batchId queueMessage) queueMessage w with
        | (Worker.Return _, w') => (ack, w')
        | (Worker.Throw _, w') => (retry, w')
        end in
      let '(dispositions, w2) := queue startBatch rest w1 in
      (disposition :: dispositions, w2)
  end.

End Consumer.

(* ------------------------------------------------------------------ *)
(** ** Calls on objects of the state, and measures of a state *)

Module Measure.

(** The call [handleCallback(task, result, state)] in which [task] is the
    object [r] of [state.current_phase_tasks]: the assignments to [task]
    are assignments to that entry of the map.  (With no such object there
    is no call.) *)
Definition handleCallback_on (r : ref) (result : Callback.TiffCallbackResult)
    (state : BatchState.t) (now : string) : BatchState.t :=
  match Store.get (BatchState.current_phase_tasks state) r with
  | None => state
  | Some x =>
      let '(x', state') := TiffConversionPhase.handleCallback x result state now in
      BatchState.set_tasks
        (Store.update (BatchState.current_phase_tasks state') r (fun _ => x'))
        state'
  end.

(** The number of tasks of a state with a given status. *)
Definition count_status (s : TaskStatus) (state : BatchState.t) : Z :=
  Z.of_nat (List.length
              (filter (fun x => TaskStatus_eqb (Task.status x) s) (Spec.tasks state))).

(** The counters of the batch count the terminal tasks of the map. *)
Definition counters_agree (state : BatchState.t) : Prop :=
  BatchState.tasks_completed state = count_status completed state
  /\ BatchState.tasks_failed state = count_status failed state.

(** Does the character occur in the string? *)
Fixpoint occurs (c : ascii) (s : string) : bool :=
  match s with
  | EmptyString => false
  | String d rest => Ascii.eqb d c || occurs c rest
  end.

(** A digit of base 36 as [toString(36)] writes it: [0-9] or [a-z]. *)
Definition is_digit36 (c : ascii) : bool :=
  let n := N_of_ascii c in
  (((48 <=? n) && (n <=? 57)) || ((97 <=? n) && (n <=? 122)))%N.

Fixpoint all_digits36 (s : string) : bool :=
  match s with
  | EmptyString => true
  | String c rest => is_digit36 c && all_digits36 rest
  end.

(** The path of the callback URL that [spawnFlyMachine] gives a worker:
    the URL without [ORCHESTRATOR_URL]. *)
Definition callback_url_path (batch_id task_id : string) : string :=
  "/callback/" ++ batch_id ++ "/" ++ task_id.

(** The response of the callback route when the orchestrator returned. *)
Definition ok_response : Worker.Response :=
  {| Worker.status := 200;
     Worker.headers := Worker.jsonHeaders;
     Worker.body := Worker.Stringified (Worker.JObj [("ok", Worker.JBool true)]) |}.

(** The response of the [catch] of the handler. *)
Definition error_response (e : Worker.Thrown) : Worker.Response :=
  {| Worker.status := 500;
     Worker.headers := Worker.jsonHeaders;
     Worker.body :=
       Worker.Stringified (Worker.JObj [("error", Worker.JStr (Worker.message e))]) |}.

End Measure.

(* ------------------------------------------------------------------ *)
(** ** More concrete inputs *)

Module MoreExamples.

(** A batch with one task of each status, its counters in step. *)
Definition one_of_each : BatchState.t :=
  Examples.batch
    [("B1_tiff_p", Examples.task "B1_tiff_p" "s/B1/p.tif" "p.tif" pending);
     ("B1_tiff_q", Examples.task "B1_tiff_q" "s/B1/q.tif" "q.tif" processing);
     ("B1_tiff_c", Examples.task "B1_tiff_c" "s/B1/c.tif" "c.tif" completed);
     ("B1_tiff_f", Examples.task "B1_tiff_f" "s/B1/f.tif" "f.tif" failed)]
    4 1 1.

(** A batch whose tasks are all spawned or done. *)
Definition none_pending : BatchState.t :=
  Examples.batch
    [("B1_tiff_q", Examples.task "B1_tiff_q" "s/B1/q.tif" "q.tif" processing);
     ("B1_tiff_c", Examples.task "B1_tiff_c" "s/B1/c.tif" "c.tif" completed)]
    2 1 0.

(** A [startBatch] that throws for the batch ["bad"] and otherwise logs the
    name of the Durable Object it was called on. *)
Definition startBatch_logging : Consumer.StartBatch (list string) :=
  fun name queueMessage log =>
    if String.eqb name "bad" then (Worker.Throw (Worker.Error "boom"), log)
    else (Worker.Return tt, name :: log).

(** A Durable Object that does not know the batch: it answers 404 to every
    internal request. *)
Definition unknown_batch_namespace : Worker.Namespace unit :=
  {| Worker.handleCallback := fun _ _ _ w => (Worker.Return tt, w);
     Worker.do_fetch :=
       fun _ _ _ w =>
         (Worker.Return
            {| Worker.do_status := 404;
               Worker.do_json :=
                 Worker.Return (Worker.JObj [("error", Worker.JStr "Batch not found")]) |},
          w) |}.

Definition request (method pathname : string) : Worker.Request :=
  {| Worker.method := method;
     Worker.pathname := pathname;
     Worker.json_body := Worker.Return (Worker.JObj [("status", Worker.JStr "success")]) |}.

End MoreExamples.

(* ================================================================== *)
(** * Properties *)

(* ------------------------------------------------------------------ *)
(** ** 32-bit conversion *)

Section Int32.

Lemma to_int32_range z : - 2147483648 <= JS.to_int32 z < 2147483648.
Proof.
  unfold JS.to_int32.
  pose proof (Z.mod_pos_bound (z + 2147483648) 4294967296 ltac:(lia)). lia.
Qed.

(** [ToInt32] differs from its argument by a multiple of 2^32 ... *)
Lemma to_int32_eqm z : exists q, JS.to_int32 z = z + q * 4294967296.
Proof.
  exists (- ((z + 2147483648) / 4294967296)). unfold JS.to_int32.
  rewrite Z.mod_eq by lia. ring.
Qed.

(** ... and forgets such multiples. *)
Lemma to_int32_shift z q : JS.to_int32 (z + q * 4294967296) = JS.to_int32 z.
Proof.
  unfold JS.to_int32.
  replace (z + q * 4294967296 + 2147483648)
    with (z + 2147483648 + q * 4294967296) by ring.
  now rewrite Z_mod_plus_full.
Qed.

Lemma to_int32_idem z : JS.to_int32 (JS.to_int32 z) = JS.to_int32 z.
Proof.
  destruct (to_int32_eqm z) as [q Hq]. rewrite Hq at 1. apply to_int32_shift.
Qed.

Lemma to_int32_small z : - 2147483648 <= z < 2147483648 -> JS.to_int32 z = z.
Proof.
  intros H. unfold JS.to_int32. rewrite Z.mod_small by lia. ring.
Qed.

Lemma band_diag z : JS.band z z = JS.to_int32 z.
Proof.
  unfold JS.band. rewrite Z.land_diag. apply to_int32_idem.
Qed.

Lemma shl_5 z : JS.shl z 5 = JS.to_int32 (32 * z).
Proof.
  unfold JS.shl. rewrite Z.shiftl_mul_pow2 by lia.
  destruct (to_int32_eqm z) as [q Hq]. rewrite Hq.
  replace ((z + q * 4294967296) * 2 ^ 5)
    with (32 * z + (q * 32) * 4294967296) by ring.
  apply to_int32_shift.
Qed.

End Int32.

(* ------------------------------------------------------------------ *)
(** ** Task ids *)

Section TaskIdFacts.

Import TaskId.

(** Every base-36 digit is read back as its value. *)
Lemma digit_value_char d : 0 <= d < 36 -> Spec.digit_value (JS.digit_char d) = d.
Proof.
  intros H.
  assert (Hd : In d (map Z.of_nat (seq 0 36))).
  { apply in_map_iff. exists (Z.to_nat d). split; [lia|]. apply in_seq. lia. }
  cbn in Hd.
  repeat (destruct Hd as [<- | Hd]; [vm_compute; reflexivity|]).
  destruct Hd.
Qed.

Lemma value36_app d1 : forall d2 acc,
  Spec.value36 (d1 ++ d2) acc = Spec.value36 d2 (Spec.value36 d1 acc).
Proof.
  induction d1 as [|c d1 IH]; intros d2 acc; cbn; [reflexivity | apply IH].
Qed.

(** With fuel for the binary length of [n], the digit loop writes all the
    digits of [n] in front of [acc]. *)
Lemma digits36_spec fuel : forall n acc,
  0 <= n < 2 ^ Z.of_nat (S fuel) ->
  exists digits,
    JS.digits36 (S fuel) n acc = (digits ++ acc)%string
    /\ forall v, Spec.value36 digits v = v * 36 ^ Z.of_nat (String.length digits) + n.
Proof.
  induction fuel as [|fuel IH]; intros n acc Hn;
    pose proof (Z.mod_pos_bound n 36 ltac:(lia)) as Hm;
    pose proof (Z.div_mod n 36 ltac:(lia)) as Hdm;
    cbn [JS.digits36];
    destruct (Z.eqb_spec (n / 36) 0) as [Hq | Hq].
  1, 3: exists (String (JS.digit_char (n mod 36)) ""); split; [reflexivity|];
    intros v; cbn [Spec.value36 String.length];
    rewrite digit_value_char by exact Hm;
    change (36 ^ Z.of_nat 1) with 36; lia.
  - exfalso. apply Hq. apply Z.div_small. change (2 ^ Z.of_nat 1) with 2 in Hn. lia.
  - assert (Hq' : 0 <= n / 36 < 2 ^ Z.of_nat (S fuel)).
    { split; [apply Z.div_pos; lia|].
      rewrite (Nat2Z.inj_succ (S fuel)), Z.pow_succ_r in Hn by lia.
      apply Z.div_lt_upper_bound; lia. }
    destruct (IH (n / 36) (String (JS.digit_char (n mod 36)) acc) Hq')
      as (digits & E & Hv).
    exists (digits ++ String (JS.digit_char (n mod 36)) "")%string. split.
    + change (JS.digits36 (S fuel) (n / 36) (String (JS.digit_char (n mod 36)) acc)
              = ((digits ++ String (JS.digit_char (n mod 36)) "") ++ acc)%string).
      rewrite E. clear. induction digits as [|c digits IHd]; cbn; [reflexivity|].
      now rewrite IHd.
    + intros v. rewrite value36_app, Hv. cbn [Spec.value36].
      rewrite digit_value_char by exact Hm.
      replace (String.length (digits ++ String (JS.digit_char (n mod 36)) ""))
        with (S (String.length digits)).
      * rewrite Nat2Z.inj_succ, Z.pow_succ_r by lia. lia.
      * clear. induction digits as [|c digits IHd]; cbn; [reflexivity|].
        now rewrite <- IHd.
Qed.

(** [toString36] has fuel enough for every [n >= 0]: its digits are read
    back as [n].  So it maps different numbers to different strings. *)
Lemma toString36_value n : 0 <= n -> Spec.value36 (JS.toString36 n) 0 = n.
Proof.
  intros Hn. unfold JS.toString36.
  assert (Hf : 0 <= n < 2 ^ Z.of_nat (S (Z.to_nat (Z.log2 n)))).
  { split; [exact Hn|].
    rewrite Nat2Z.inj_succ, Z2Nat.id by apply Z.log2_nonneg.
    destruct (Z.eq_dec n 0) as [-> | Hn0]; [cbn; lia|].
    apply Z.log2_spec. lia. }
  destruct (digits36_spec _ n "" Hf) as (digits & E & Hv).
  rewrite E, value36_app, Hv. cbn. lia.
Qed.

Lemma toString36_inj n m :
  0 <= n -> 0 <= m -> JS.toString36 n = JS.toString36 m -> n = m.
Proof.
  intros Hn Hm E.
  rewrite <- (toString36_value n Hn), <- (toString36_value m Hm). now rewrite E.
Qed.

Lemma hash_loop_String c rest h :
  hash_loop (String c rest) h = hash_loop rest (hash_step h c).
Proof. reflexivity. Qed.

Lemma poly31_String c rest a :
  Spec.poly31 (String c rest) a = Spec.poly31 rest (31 * a + JS.charCode c).
Proof. reflexivity. Qed.

(** One round of the loop multiplies by 31 and adds the character code,
    modulo 2^32. *)
Lemma hash_step_closed x c :
  hash_step (JS.to_int32 x) c = JS.to_int32 (31 * x + JS.charCode c).
Proof.
  unfold hash_step. rewrite band_diag, shl_5.
  destruct (to_int32_eqm x) as [q Hq].
  destruct (to_int32_eqm (32 * JS.to_int32 x)) as [q' Hq'].
  rewrite Hq', Hq.
  replace (32 * (x + q * 4294967296) + q' * 4294967296
           - (x + q * 4294967296) + JS.charCode c)
    with (31 * x + JS.charCode c + (31 * q + q') * 4294967296) by ring.
  apply to_int32_shift.
Qed.

Lemma hash_loop_closed str : forall x,
  hash_loop str (JS.to_int32 x) = JS.to_int32 (Spec.poly31 str x).
Proof.
  induction str as [|c rest IH]; intros x.
  - reflexivity.
  - rewrite hash_loop_String, poly31_String, hash_step_closed. apply IH.
Qed.

(** The hash is the signed 32-bit reading of the polynomial in 31. *)
Lemma hash_loop_poly31 str :
  TaskId.hash_loop str 0 = JS.to_int32 (Spec.poly31 str 0).
Proof.
  rewrite <- (to_int32_small 0) at 1 by lia. apply hash_loop_closed.
Qed.

Lemma hash_loop_range str : - 2147483648 <= hash_loop str 0 < 2147483648.
Proof.
  rewrite hash_loop_poly31. apply to_int32_range.
Qed.

End TaskIdFacts.

(* ------------------------------------------------------------------ *)
(** ** The file-name test *)

Section IsTiff.

Import Regex.

(** Under the [i] flag a pattern character of [\.tiff?] matches the
    characters whose lower case it is. *)
Lemma char_matches_lower p c :
  In p ["."; "t"; "i"; "f"]%char ->
  char_matches p c = true <-> Spec.to_lower c = p.
Proof.
  intros Hp. simpl in Hp.
  destruct Hp as [<-|[<-|[<-|[<-|[]]]]];
    destruct c as [[] [] [] [] [] [] [] []]; vm_compute;
    split; intros H; solve [reflexivity | discriminate H].
Qed.

(** [test] finds a match exactly when some suffix matches at its start. *)
Lemma test_suffix p s :
  test p s = true <-> exists stem ext, s = stem ++ ext /\ match_here p ext = true.
Proof.
  induction s as [|c s IH]; simpl.
  - rewrite orb_false_r. split.
    + intros H. now exists "", "".
    + intros (stem & ext & E & H).
      destruct stem; simpl in E; [now subst ext | discriminate].
  - rewrite orb_true_iff, IH. split.
    + intros [H | (stem & ext & -> & H)].
      * now exists "", (String c s).
      * now exists (String c stem), ext.
    + intros (stem & ext & E & H).
      destruct stem as [|d stem]; simpl in E.
      * left. now subst ext.
      * right. injection E as -> ->. now exists stem, ext.
Qed.

Ltac lower_chars :=
  repeat match goal with
         | H : char_matches _ _ = true |- _ =>
             apply char_matches_lower in H; [| simpl; tauto]
         end.

Ltac match_chars :=
  repeat match goal with
         | E : Spec.to_lower ?c = ?p |- _ =>
             let M := fresh in
             assert (M : char_matches p c = true)
               by (apply char_matches_lower; [simpl; tauto | exact E]);
             rewrite M; clear E M
         end.

Lemma match_tiff_here ext :
  match_here TiffConversionPhase.tiff_pattern ext = true <->
  Spec.lower ext = ".tif" \/ Spec.lower ext = ".tiff".
Proof.
  unfold TiffConversionPhase.tiff_pattern. split.
  - intros H.
    destruct ext as [|c0 [|c1 [|c2 [|c3 rest]]]];
      cbn [match_here] in H; try discriminate H;
      repeat (apply andb_prop in H; destruct H as [? H]);
      try discriminate H.
    destruct rest as [|c4 rest]; cbn [match_here] in H.
    + left. lower_chars. cbn [Spec.lower]. congruence.
    + rewrite orb_false_r in H.
      apply andb_prop in H. destruct H as [? H].
      destruct rest; [| discriminate H].
      right. lower_chars. cbn [Spec.lower]. congruence.
  - intros [H | H];
      destruct ext as [|c0 [|c1 [|c2 [|c3 [|c4 [|c5 rest]]]]]];
      cbn [Spec.lower] in H; try discriminate H;
      injection H; intros; cbn [match_here]; match_chars; reflexivity.
Qed.

(** [isTiff] holds of the names that end in [.tif] or [.tiff], whatever
    the case of the letters. *)
Lemma isTiff_qualifies name :
  TiffConversionPhase.isTiff name = true <-> Spec.qualifies name.
Proof.
  unfold TiffConversionPhase.isTiff, Spec.qualifies, Spec.ends_with_ci.
  rewrite test_suffix. split.
  - intros (stem & ext & E & H). apply match_tiff_here in H.
    destruct H as [H | H]; [left | right]; now exists stem, ext.
  - intros [(stem & ext & E & H) | (stem & ext & E & H)];
      exists stem, ext; (split; [exact E |]); apply match_tiff_here; tauto.
Qed.

End IsTiff.

(* ------------------------------------------------------------------ *)
(** ** Discovery *)

Section Discover.

Import TiffConversionPhase.

(** The inner loop appends the tasks of the qualifying files, in order. *)
Lemma discover_files batch_id files : forall tasks,
  fold_left
    (fun tasks file =>
       if isTiff (Queue.file_name file)
       then (tasks ++ [new_task batch_id file])%list else tasks)
    files tasks
  = (tasks ++ map (new_task batch_id) (filter Spec.keep files))%list.
Proof.
  induction files as [|file files IH]; intros tasks; simpl.
  - now rewrite app_nil_r.
  - rewrite IH. unfold Spec.keep at 2.
    destruct (isTiff (Queue.file_name file)); simpl.
    + now rewrite <- app_assoc.
    + reflexivity.
Qed.

Lemma discover_directories batch_id dirs : forall tasks,
  fold_left
    (fun tasks directory =>
       fold_left
         (fun tasks file =>
            if isTiff (Queue.file_name file)
            then (tasks ++ [new_task batch_id file])%list else tasks)
         (Queue.files directory) tasks)
    dirs tasks
  = (tasks ++ map (new_task batch_id) (filter Spec.keep (flat_map Queue.files dirs)))%list.
Proof.
  induction dirs as [|d dirs IH]; intros tasks; simpl.
  - now rewrite app_nil_r.
  - rewrite IH, discover_files, filter_app, map_app, app_assoc. reflexivity.
Qed.

(** [discover] makes one task of each qualifying file of the message, in
    the order of the files. *)
Lemma discover_map_filter m :
  discover m = map (new_task (Queue.batch_id m)) (filter Spec.keep (Spec.all_files m)).
Proof.
  unfold discover. now rewrite discover_directories.
Qed.

Lemma filter_keep_inventory (l1 l2 : list Queue.QueueFileInfo) :
  map (fun f => (Queue.file_name f, Queue.r2_key f)) l1
  = map (fun f => (Queue.file_name f, Queue.r2_key f)) l2 ->
  map Queue.r2_key (filter Spec.keep l1) = map Queue.r2_key (filter Spec.keep l2).
Proof.
  revert l2. induction l1 as [|f1 l1 IH]; intros [|f2 l2] E; simpl in E;
    try discriminate E; [reflexivity|].
  injection E as En Ek E. simpl.
  replace (Spec.keep f1) with (Spec.keep f2) by (unfold Spec.keep; now rewrite En).
  destruct (Spec.keep f2); simpl; [rewrite Ek; f_equal|]; now apply IH.
Qed.

End Discover.

(* ------------------------------------------------------------------ *)
(** ** The task store *)

Section StoreFacts.

Local Open Scope nat_scope.
Local Open Scope list_scope.

Lemma get_nth_error o r : Store.get o r = nth_error (map snd o) r.
Proof.
  unfold Store.get. now rewrite nth_error_map.
Qed.

Lemma length_update o : forall r f,
  List.length (Store.update o r f) = List.length o.
Proof.
  induction o as [|[k x] o IH]; intros [|r] f; simpl; auto.
Qed.

(** An assignment to a task object keeps the keys of the map. *)
Lemma keys_update o : forall r f,
  map fst (Store.update o r f) = map fst o.
Proof.
  induction o as [|[k x] o IH]; intros [|r] f; simpl; auto.
  now rewrite IH.
Qed.

Lemma get_update_same o : forall r f,
  Store.get (Store.update o r f) r = option_map f (Store.get o r).
Proof.
  induction o as [|[k x] o IH]; intros [|r] f; simpl; auto.
  apply IH.
Qed.

(** An assignment through one reference is not seen through another. *)
Lemma get_update_other o : forall r r' f,
  r <> r' -> Store.get (Store.update o r f) r' = Store.get o r'.
Proof.
  induction o as [|[k x] o IH]; intros [|r] [|r'] f Hne; simpl; auto.
  - congruence.
  - apply IH. congruence.
Qed.

Lemma get_Some_lt o r x : Store.get o r = Some x -> r < List.length o.
Proof.
  rewrite get_nth_error. intros H.
  rewrite <- (length_map snd). apply nth_error_Some. congruence.
Qed.

Lemma get_lt_Some o r : r < List.length o -> exists x, Store.get o r = Some x.
Proof.
  intros H. rewrite get_nth_error.
  destruct (nth_error (map snd o) r) eqn:E; [eauto|].
  apply nth_error_None in E. rewrite length_map in E. lia.
Qed.

Lemma in_values o r : In r (Store.values o) <-> r < List.length o.
Proof.
  unfold Store.values. rewrite in_seq. lia.
Qed.

Lemma NoDup_values o : NoDup (Store.values o).
Proof. apply seq_NoDup. Qed.

Lemma status_is_true o s r :
  Store.status_is o s r = true <->
  exists x, Store.get o r = Some x /\ Task.status x = s.
Proof.
  unfold Store.status_is. destruct (Store.get o r) as [x|].
  - split.
    + intros H. exists x. split; [reflexivity|].
      destruct (Task.status x), s; simpl in H; congruence.
    + intros (y & [= <-] & <-). now destruct (Task.status x).
  - split; [discriminate | intros (y & [=] & _)].
Qed.

(** Two maps with the same keys and, behind every reference, the same
    object, are the same map. *)
Lemma store_ext o o' :
  map fst o = map fst o' ->
  (forall r, Store.get o r = Store.get o' r) ->
  o = o'.
Proof.
  revert o'. induction o as [|[k x] o IH]; intros [|[k' x'] o'] Hk Hg;
    simpl in Hk; try discriminate Hk; [reflexivity|].
  injection Hk as -> Hk.
  pose proof (Hg 0) as H0. cbv in H0. injection H0 as ->.
  f_equal. apply IH; [exact Hk|]. intros r. apply (Hg (S r)).
Qed.

Lemma Exists_get (P : Task.t -> Prop) o :
  Exists P (map snd o) <-> exists r x, Store.get o r = Some x /\ P x.
Proof.
  rewrite Exists_exists. split.
  - intros (x & Hin & HP). apply In_nth_error in Hin. destruct Hin as [r Hr].
    exists r, x. now rewrite get_nth_error.
  - intros (r & x & Hr & HP). exists x. split; [|exact HP].
    rewrite get_nth_error in Hr. eapply nth_error_In; eauto.
Qed.

Lemma Forall_get (P : Task.t -> Prop) o :
  Forall P (map snd o) <-> forall r x, Store.get o r = Some x -> P x.
Proof.
  rewrite Forall_forall. split.
  - intros H r x Hr. apply H. rewrite get_nth_error in Hr.
    eapply nth_error_In; eauto.
  - intros H x Hin. apply In_nth_error in Hin. destruct Hin as [r Hr].
    apply (H r). now rewrite get_nth_error.
Qed.

(** The objects behind the references to a suffix of the map. *)
Lemma deref_seq suf : forall pre,
  Spec.deref (pre ++ suf) (seq (List.length pre) (List.length suf)) = map snd suf.
Proof.
  induction suf as [|e suf IH]; intros pre; [reflexivity|].
  cbn [List.length seq Spec.deref flat_map map].
  rewrite get_nth_error, map_app, nth_error_app2 by (rewrite length_map; lia).
  rewrite length_map, Nat.sub_diag. cbn [map nth_error app]. f_equal.
  specialize (IH (pre ++ [e])%list).
  rewrite <- app_assoc, last_length in IH. exact IH.
Qed.

Lemma deref_values o : Spec.deref o (Store.values o) = map snd o.
Proof. apply (deref_seq o []). Qed.

Lemma deref_filter o s refs :
  Spec.deref o (filter (Store.status_is o s) refs)
  = filter (fun x => TaskStatus_eqb (Task.status x) s) (Spec.deref o refs).
Proof.
  induction refs as [|r refs IH]; [reflexivity|].
  cbn [filter Spec.deref flat_map]. unfold Store.status_is at 1.
  destruct (Store.get o r) as [x|] eqn:E; cbn [app filter].
  - destruct (TaskStatus_eqb (Task.status x) s);
      cbn [Spec.deref flat_map]; [rewrite E; cbn [app]; f_equal|]; exact IH.
  - exact IH.
Qed.

Lemma deref_firstn o refs :
  Forall (fun r => r < List.length o) refs ->
  forall n, Spec.deref o (firstn n refs) = firstn n (Spec.deref o refs).
Proof.
  induction 1 as [|r refs Hr _ IH]; intros [|n]; try reflexivity.
  cbn [firstn Spec.deref flat_map].
  destruct (get_lt_Some o r Hr) as [x ->]. cbn [app firstn]. f_equal. apply IH.
Qed.

Lemma length_deref o refs :
  Forall (fun r => r < List.length o) refs ->
  List.length (Spec.deref o refs) = List.length refs.
Proof.
  induction 1 as [|r refs Hr _ IH]; [reflexivity|].
  cbn [Spec.deref flat_map]. destruct (get_lt_Some o r Hr) as [x ->].
  cbn [app List.length]. f_equal. exact IH.
Qed.

End StoreFacts.

(* ------------------------------------------------------------------ *)
(** ** One wake of [executeBatch] *)

Section ExecuteBatchFacts.

Import TiffConversionPhase.
Local Open Scope nat_scope.
Local Open Scope list_scope.

Variables (config : Config) (env : Env) (api : Fly.Api) (clock : nat -> string).

Lemma NoDup_firstn {A} (l : list A) n : NoDup l -> NoDup (firstn n l).
Proof.
  intros H. rewrite <- (firstn_skipn n l) in H.
  now apply NoDup_app_remove_r in H.
Qed.

Lemma In_firstn_In {A} (l : list A) n x : In x (firstn n l) -> In x l.
Proof.
  intros H. rewrite <- (firstn_skipn n l). apply in_or_app. now left.
Qed.

(** The selected references are distinct objects of the map, each
    [pending]. *)
Lemma pendingTasks_NoDup state : NoDup (pendingTasks state config).
Proof.
  unfold pendingTasks, JS.slice0.
  apply NoDup_firstn, NoDup_filter, NoDup_values.
Qed.

Lemma pendingTasks_pending state r :
  In r (pendingTasks state config) ->
  Store.status_is (BatchState.current_phase_tasks state) pending r = true
  /\ r < List.length (BatchState.current_phase_tasks state).
Proof.
  unfold pendingTasks, JS.slice0. intros H.
  apply In_firstn_In, filter_In in H. destruct H as [Hin Hs].
  split; [exact Hs | now apply in_values].
Qed.

Lemma machineConfig_same_fields x state state' :
  Spec.same_batch_fields state state' ->
  machineConfig x state' config env = machineConfig x state config env.
Proof.
  unfold Spec.same_batch_fields. intros ->. reflexivity.
Qed.

(** One promise: the request it sends, how it settles, and what it
    writes. *)
Lemma spawnFlyMachine_spec r state answer x :
  Store.get (BatchState.current_phase_tasks state) r = Some x ->
  exists state',
    spawnFlyMachine r state config env answer
    = ([machineConfig x state config env],
       Spec.settles (answer (machineConfig x state config env)), state')
    /\ Spec.same_batch_fields state state'
    /\ map fst (BatchState.current_phase_tasks state')
       = map fst (BatchState.current_phase_tasks state)
    /\ (forall r', r <> r' ->
          Store.get (BatchState.current_phase_tasks state') r'
          = Store.get (BatchState.current_phase_tasks state) r')
    /\ Store.get (BatchState.current_phase_tasks state') r
       = Some match answer (machineConfig x state config env) with
              | Fly.Response true _ _ (Some id) => Task.set_fly_machine_id id x
              | _ => x
              end.
Proof.
  intros Hx. unfold spawnFlyMachine. rewrite Hx.
  assert (Hsame : Spec.same_batch_fields state state)
    by (unfold Spec.same_batch_fields; now destruct state).
  destruct (answer (machineConfig x state config env))
    as [reason | [|] status text [id|]]; cbn [negb Spec.settles];
    try (exists state; repeat split; auto; fail).
  eexists. split; [reflexivity|]. destruct state; cbn.
  repeat split.
  - apply keys_update.
  - intros r' Hne. now apply get_update_other.
  - cbn in Hx. now rewrite get_update_same, Hx.
Qed.

Lemma same_batch_fields_refl state : Spec.same_batch_fields state state.
Proof. unfold Spec.same_batch_fields. now destruct state. Qed.

Lemma same_batch_fields_trans s1 s2 s3 :
  Spec.same_batch_fields s1 s2 -> Spec.same_batch_fields s2 s3 ->
  Spec.same_batch_fields s1 s3.
Proof.
  unfold Spec.same_batch_fields. intros H12 H23.
  rewrite H23 at 1. rewrite H12 at 1. reflexivity.
Qed.

Lemma same_batch_fields_set_tasks s s1 o :
  Spec.same_batch_fields s s1 ->
  Spec.same_batch_fields s (BatchState.set_tasks o s1).
Proof.
  unfold Spec.same_batch_fields. intros H.
  destruct s, s1; cbn in *. injection H; intros; subst. reflexivity.
Qed.

Lemma tasks_set_tasks o s :
  BatchState.current_phase_tasks (BatchState.set_tasks o s) = o.
Proof. reflexivity. Qed.

Lemma length_keys (o o' : TaskMap) :
  map fst o' = map fst o -> List.length o' = List.length o.
Proof.
  intros H. rewrite <- (length_map fst o'), H. apply length_map.
Qed.

Lemma deref_ext o o' refs :
  (forall r, In r refs -> Store.get o' r = Store.get o r) ->
  Spec.deref o' refs = Spec.deref o refs.
Proof.
  induction refs as [|r refs IH]; intros H; [reflexivity|].
  cbn [Spec.deref flat_map]. rewrite (H r) by now left.
  f_equal. apply IH. intros r' Hr'. apply H. now right.
Qed.

(** All the promises of a wake: the requests sent, how each settles, and
    what they write.  The [k]-th promise sees its task as it was at the
    start of the wake, because the selected objects are distinct. *)
Lemma allSettled_spec : forall ps i state sent results state1,
  NoDup ps ->
  Forall (fun r => r < List.length (BatchState.current_phase_tasks state)) ps ->
  allSettled ps i state config env api = (sent, results, state1) ->
  Spec.same_batch_fields state state1
  /\ map fst (BatchState.current_phase_tasks state1)
     = map fst (BatchState.current_phase_tasks state)
  /\ sent = map (fun x => machineConfig x state config env)
                (Spec.deref (BatchState.current_phase_tasks state) ps)
  /\ List.length results = List.length ps
  /\ (forall r, ~ In r ps ->
        Store.get (BatchState.current_phase_tasks state1) r
        = Store.get (BatchState.current_phase_tasks state) r)
  /\ (forall k r x,
        nth_error ps k = Some r ->
        Store.get (BatchState.current_phase_tasks state) r = Some x ->
        nth_error results k
        = Some (Spec.settles (api (i + k) (machineConfig x state config env)))
        /\ Store.get (BatchState.current_phase_tasks state1) r
           = Some match api (i + k) (machineConfig x state config env) with
                  | Fly.Response true _ _ (Some id) => Task.set_fly_machine_id id x
                  | _ => x
                  end).
Proof.
  induction ps as [|r0 rest IH]; intros i state sent results state1 Hnd Hval H.
  - cbn in H. injection H as <- <- <-.
    repeat apply conj; auto using same_batch_fields_refl.
    intros k r x Hk. destruct k; discriminate Hk.
  - cbn [allSettled] in H.
    inversion Hnd as [|? ? Hnotin Hnd']; subst.
    inversion Hval as [|? ? Hlt Hval']; subst.
    destruct (get_lt_Some _ _ Hlt) as [x0 Hx0].
    destruct (spawnFlyMachine_spec r0 state (api i) x0 Hx0)
      as (state' & E & Hsame & Hkeys & Hother & Hself).
    rewrite E in H.
    destruct (allSettled rest (S i) state' config env api)
      as [[sent' results'] state2] eqn:E2.
    injection H as <- <- <-.
    assert (Hval2 : Forall (fun r => r < List.length (BatchState.current_phase_tasks state')) rest)
      by now rewrite (length_keys _ _ Hkeys).
    destruct (IH _ _ _ _ _ Hnd' Hval2 E2)
      as (Hsame2 & Hkeys2 & Hsent & Hlen & Hout & Hin).
    assert (Hrest : forall r, In r rest ->
              Store.get (BatchState.current_phase_tasks state') r
              = Store.get (BatchState.current_phase_tasks state) r).
    { intros r Hr. apply Hother. intros ->. contradiction. }
    repeat apply conj.
    + eapply same_batch_fields_trans; eauto.
    + congruence.
    + cbn [Spec.deref flat_map]. rewrite Hx0. cbn [app map]. f_equal.
      rewrite Hsent, (deref_ext _ _ _ Hrest).
      apply map_ext. intros x. now apply machineConfig_same_fields.
    + cbn. now rewrite Hlen.
    + intros r Hr. rewrite Hout by (intros ?; apply Hr; now right).
      apply Hother. intros ->. apply Hr. now left.
    + intros k r x Hk Hx. destruct k as [|k]; cbn [nth_error] in Hk.
      * injection Hk as <-. rewrite Hx0 in Hx. injection Hx as <-.
        rewrite Nat.add_0_r, Hout by exact Hnotin. now split.
      * apply nth_error_In in Hk as Hr.
        rewrite <- (Hrest _ Hr) in Hx.
        destruct (Hin _ _ _ Hk Hx) as [Hres Hget].
        rewrite (machineConfig_same_fields _ _ _ Hsame) in Hres, Hget.
        rewrite Nat.add_succ_r. now split.
Qed.

(** The marking loop writes to the selected objects whose promise was
    fulfilled, and to nothing else. *)
Lemma mark_spawned_spec : forall ps results i o,
  NoDup ps ->
  List.length results = List.length ps ->
  map fst (mark_spawned ps results i clock o) = map fst o
  /\ (forall r, ~ In r ps ->
        Store.get (mark_spawned ps results i clock o) r = Store.get o r)
  /\ (forall k r res,
        nth_error ps k = Some r ->
        nth_error results k = Some res ->
        Store.get (mark_spawned ps results i clock o) r
        = option_map
            (fun x => match res with
                      | fulfilled =>
                          Task.set_started_at (Some (clock (i + k)))
                            (Task.set_status processing x)
                      | rejected _ => x
                      end)
            (Store.get o r)).
Proof.
  induction ps as [|r0 rest IH]; intros [|res0 results] i o Hnd Hlen;
    try discriminate Hlen.
  - repeat apply conj; auto. intros k r res Hk. destruct k; discriminate Hk.
  - cbn [mark_spawned].
    inversion Hnd as [|? ? Hnotin Hnd']; subst.
    injection Hlen as Hlen.
    set (o' := match res0 with
               | fulfilled => Store.update o r0 _
               | rejected _ => o
               end).
    assert (Hkeys : map fst o' = map fst o)
      by (subst o'; destruct res0; auto using keys_update).
    assert (Hother : forall r, r0 <> r -> Store.get o' r = Store.get o r)
      by (intros r Hne; subst o'; destruct res0; auto using get_update_other).
    destruct (IH results (S i) o' Hnd' Hlen) as (Hk' & Hout & Hin).
    repeat apply conj.
    + congruence.
    + intros r Hr. rewrite Hout by (intros ?; apply Hr; now right).
      apply Hother. intros ->. apply Hr. now left.
    + intros k r res Hk Hres. destruct k as [|k]; cbn [nth_error] in Hk, Hres.
      * injection Hk as <-. injection Hres as <-.
        rewrite Hout, Nat.add_0_r by exact Hnotin. subst o'.
        destruct res0; [apply get_update_same | now destruct (Store.get o r0)].
      * rewrite (Hin _ _ _ Hk Hres), Nat.add_succ_r.
        rewrite Hother; [reflexivity|].
        intros ->. apply Hnotin. eapply nth_error_In; eauto.
Qed.

(** What a wake does to the state: the [k]-th selected task becomes what
    the answer to its request makes of it; every other task, and every
    field of the batch but the task map, stays as it is.  The requests
    sent are those of the selected tasks, in order. *)
Lemma executeBatch_spec state :
  let out := executeBatch state config env api clock in
  let o := BatchState.current_phase_tasks state in
  let o' := BatchState.current_phase_tasks (state_after out) in
  Spec.same_batch_fields state (state_after out)
  /\ map fst o' = map fst o
  /\ requests out
     = map (fun x => machineConfig x state config env)
           (Spec.deref o (pendingTasks state config))
  /\ (forall r, ~ In r (pendingTasks state config) ->
        Store.get o' r = Store.get o r)
  /\ (forall k r x,
        nth_error (pendingTasks state config) k = Some r ->
        Store.get o r = Some x ->
        Store.get o' r
        = Some (Spec.after_spawn x (api k (machineConfig x state config env))
                                 (clock k))).
Proof.
  intros out o o'. subst out o' o. unfold executeBatch.
  pose proof (pendingTasks_NoDup state) as Hnd.
  assert (Hval : Forall (fun r => r < List.length (BatchState.current_phase_tasks state))
                        (pendingTasks state config)).
  { apply Forall_forall. intros r Hr. now apply pendingTasks_pending in Hr. }
  destruct (pendingTasks state config) as [|r0 rest] eqn:Eps.
  - cbn [List.length Nat.eqb].
    assert (forall b : bool,
              state_after (if b
                           then {| more_work := false; state_after := state; requests := [] |}
                           else {| more_work := true; state_after := state; requests := [] |})
              = state
              /\ requests (if b
                           then {| more_work := false; state_after := state; requests := [] |}
                           else {| more_work := true; state_after := state; requests := [] |})
                 = []) as Hb by (intros []; now split).
    destruct (Hb (allDone state)) as [-> ->].
    repeat apply conj; auto using same_batch_fields_refl.
    intros k r x Hk. destruct k; discriminate Hk.
  - cbn [List.length Nat.eqb].
    destruct (allSettled (r0 :: rest) 0 state config env api)
      as [[sent results] state1] eqn:E.
    destruct (allSettled_spec _ _ _ _ _ _ Hnd Hval E)
      as (Hsame & Hkeys & Hsent & Hlen & Hout & Hin).
    destruct (mark_spawned_spec (r0 :: rest) results 0
                (BatchState.current_phase_tasks state1) Hnd Hlen)
      as (Hkeys2 & Hout2 & Hin2).
    cbn [state_after requests]. rewrite tasks_set_tasks.
    repeat apply conj.
    + now apply same_batch_fields_set_tasks.
    + congruence.
    + exact Hsent.
    + intros r Hr. rewrite Hout2 by exact Hr. now apply Hout.
    + intros k r x Hk Hx.
      destruct (Hin _ _ _ Hk Hx) as [Hres Hget]. cbn [Nat.add] in Hres, Hget.
      rewrite (Hin2 _ _ _ Hk Hres), Hget. cbn [Nat.add option_map].
      f_equal.
      destruct (api k (machineConfig x state config env))
        as [reason | [|] status text [id|]]; reflexivity.
Qed.

End ExecuteBatchFacts.

(* ================================================================== *)
(** * The claims of the specification *)

(* ------------------------------------------------------------------ *)
(** ** Task identity and discovery *)

Section IdentityClaims.

Import TiffConversionPhase.

Lemma append_inj_l (p s1 s2 : string) : p ++ s1 = p ++ s2 -> s1 = s2.
Proof.
  induction p as [|c p IH]; cbn; intros E; [exact E|].
  injection E as E. now apply IH.
Qed.

Example generateTaskId_a_tiff :
  TaskId.generateTaskId "B1" "s/B1/a.tiff" = "B1_tiff_f4dk12"
  /\ TaskId.generateTaskId "B1" "s/B1/c.TIF" = "B1_tiff_e9kdya".
Proof. split; vm_compute; reflexivity. Qed.

(** The mixed-types scenario: the [.tiff] and the [.TIF] file become
    tasks, the [.jpg] and the [.pdf] file do not. *)
Example discover_mixed :
  discover Examples.mixed = [Examples.a_tiff pending; Examples.c_tif pending].
Proof. vm_compute. reflexivity. Qed.

(** C7.  Task id generation is deterministic.  [generateTaskId] is a
    function of its two arguments and of nothing else: its value is the
    batch id, ["_tiff_"], and the base-36 digits of the absolute value of
    the signed 32-bit reading of the polynomial in 31 over the character
    codes of the key; equal arguments give equal ids; and two messages with
    the same batch id and the same file names and keys, whatever their
    other fields and their grouping in directories, are discovered with the
    same ids in the same order. *)
Theorem generateTaskId_deterministic :
  (forall batchId r2Key,
      TaskId.generateTaskId batchId r2Key
      = batchId ++ "_tiff_"
          ++ JS.toString36 (Z.abs (JS.to_int32 (Spec.poly31 r2Key 0))))
  /\ (forall b1 k1 b2 k2,
        b1 = b2 -> k1 = k2 ->
        TaskId.generateTaskId b1 k1 = TaskId.generateTaskId b2 k2)
  /\ (forall m1 m2,
        Queue.batch_id m1 = Queue.batch_id m2 ->
        Spec.inventory m1 = Spec.inventory m2 ->
        map Task.task_id (discover m1) = map Task.task_id (discover m2)).
Proof.
  repeat apply conj.
  - intros batchId r2Key. unfold TaskId.generateTaskId, TaskId.simpleHash.
    now rewrite hash_loop_poly31.
  - intros b1 k1 b2 k2 -> ->. reflexivity.
  - intros m1 m2 Hb Hinv. rewrite !discover_map_filter, !map_map. cbn [new_task Task.task_id].
    rewrite Hb.
    rewrite <- !(map_map Queue.r2_key (TaskId.generateTaskId (Queue.batch_id m2))).
    f_equal. now apply filter_keep_inventory.
Qed.

Lemma generateTaskId_deterministic_witness :
  map Task.task_id (discover Examples.mixed)
  = map Task.task_id (discover Examples.mixed_two_dirs).
Proof.
  apply (proj2 (proj2 generateTaskId_deterministic)); reflexivity.
Defined.

(** C10.  Task ids can collide within a batch.  The keys [s/B1/Aa.tiff] and
    [s/B1/BB.tiff] differ and get the same id in every batch, and a message
    that holds the two files is discovered as two tasks with one id.  The
    id carries nothing of the key but the absolute value of a hash between
    -2^31 and 2^31 - 1: two keys get the same id in a batch exactly when
    their hashes have the same absolute value. *)
Theorem task_id_collision :
  (exists batch_id k1 k2,
      k1 <> k2
      /\ TaskId.generateTaskId batch_id k1 = TaskId.generateTaskId batch_id k2)
  /\ (forall batch_id,
        TaskId.generateTaskId batch_id "s/B1/Aa.tiff"
        = TaskId.generateTaskId batch_id "s/B1/BB.tiff")
  /\ (exists m f1 f2 t1 t2,
        Spec.all_files m = [f1; f2]
        /\ Queue.r2_key f1 <> Queue.r2_key f2
        /\ isTiff (Queue.file_name f1) = true
        /\ isTiff (Queue.file_name f2) = true
        /\ discover m = [t1; t2]
        /\ Task.task_id t1 = Task.task_id t2)
  /\ (forall batch_id key,
        exists h, 0 <= h <= 2147483648
                  /\ TaskId.generateTaskId batch_id key
                     = batch_id ++ "_tiff_" ++ JS.toString36 h)
  /\ (forall batch_id k1 k2,
        TaskId.generateTaskId batch_id k1 = TaskId.generateTaskId batch_id k2
        <-> Z.abs (TaskId.hash_loop k1 0) = Z.abs (TaskId.hash_loop k2 0)).
Proof.
  assert (Hh : TaskId.simpleHash "s/B1/Aa.tiff" = TaskId.simpleHash "s/B1/BB.tiff")
    by (vm_compute; reflexivity).
  split; [|split; [|split; [|split]]].
  - exists "B1", "s/B1/Aa.tiff", "s/B1/BB.tiff". split; [discriminate|].
    unfold TaskId.generateTaskId. now rewrite Hh.
  - intros batch_id. unfold TaskId.generateTaskId. now rewrite Hh.
  - exists Examples.colliding,
      (Examples.file "Aa.tiff" "s/B1/Aa.tiff"), (Examples.file "BB.tiff" "s/B1/BB.tiff"),
      (new_task "B1" (Examples.file "Aa.tiff" "s/B1/Aa.tiff")),
      (new_task "B1" (Examples.file "BB.tiff" "s/B1/BB.tiff")).
    repeat apply conj; try (vm_compute; reflexivity). discriminate.
  - intros batch_id key. exists (Z.abs (TaskId.hash_loop key 0)). split.
    + pose proof (hash_loop_range key). lia.
    + reflexivity.
  - intros batch_id k1 k2. unfold TaskId.generateTaskId, TaskId.simpleHash. split.
    + intros E. apply append_inj_l in E. apply append_inj_l in E.
      apply toString36_inj in E; [exact E | apply Z.abs_nonneg | apply Z.abs_nonneg].
    + intros E. now rewrite E.
Qed.

(** C5.  [discover] returns exactly one task per qualifying file of the
    message, across all directories and in the order of the files: the
    tasks correspond one to one to the files that the phase keeps, each
    task is [pending] with [retry_count] 0, holds the key and the name of
    its file and has the id [generateTaskId(batch_id, r2_key)]; a file is
    kept exactly when its name ends in [.tif] or [.tiff], whatever the
    case; and the result is a function of the message. *)
Theorem discover_spec (m : Queue.QueueMessage) :
  Forall2
    (fun file task =>
       Task.task_id task = TaskId.generateTaskId (Queue.batch_id m) (Queue.r2_key file)
       /\ Task.status task = pending
       /\ Task.retry_count task = 0
       /\ Task.input_r2_key task = Queue.r2_key file
       /\ Task.input_file_name task = Queue.file_name file)
    (filter Spec.keep (Spec.all_files m)) (discover m)
  /\ (forall file, Spec.keep file = true <-> Spec.qualifies (Queue.file_name file))
  /\ (forall m', m' = m -> discover m' = discover m).
Proof.
  repeat apply conj.
  - rewrite discover_map_filter.
    induction (filter Spec.keep (Spec.all_files m)) as [|file files IH]; cbn [map].
    + constructor.
    + constructor; [|exact IH]. repeat split.
  - intros file. apply isTiff_qualifies.
  - intros m' ->. reflexivity.
Qed.

Lemma discover_spec_witness :
  discover Examples.mixed = discover Examples.mixed.
Proof.
  apply (proj2 (proj2 (discover_spec Examples.mixed))). reflexivity.
Defined.

End IdentityClaims.

(* ------------------------------------------------------------------ *)
(** ** Execution of a batch *)

Section ExecuteBatchClaims.

Import TiffConversionPhase.
Local Open Scope list_scope.

Variables (config : Config) (env : Env) (api : Fly.Api) (clock : nat -> string).

Lemma firstn_min {A} (l : list A) n :
  firstn (Nat.min n (List.length l)) l = firstn n l.
Proof.
  destruct (Nat.le_ge_cases n (List.length l)) as [H | H].
  - now rewrite Nat.min_l.
  - rewrite Nat.min_r by exact H. now rewrite firstn_all, firstn_all2.
Qed.

(** For a batch size that is not negative, [slice(0, n)] keeps the first
    [n] elements. *)
Lemma slice0_firstn {A} (l : list A) n :
  0 <= n -> JS.slice0 l n = firstn (Z.to_nat n) l.
Proof.
  intros Hn. unfold JS.slice0, JS.slice_end.
  destruct (Z.ltb_spec n 0) as [H | _]; [lia|].
  rewrite <- (firstn_min l (Z.to_nat n)). f_equal. lia.
Qed.

Lemma status_or (s : TaskStatus) : Spec.unfinished s \/ Spec.terminal s.
Proof.
  unfold Spec.unfinished, Spec.terminal. destruct s; tauto.
Qed.

Lemma status_not_both (s : TaskStatus) : Spec.unfinished s -> Spec.terminal s -> False.
Proof.
  unfold Spec.unfinished, Spec.terminal. intros [-> | ->] [H | H]; discriminate H.
Qed.

(** Some task is unfinished exactly when not all are terminal. *)
Lemma Exists_unfinished (l : list Task.t) :
  Exists (fun x => Spec.unfinished (Task.status x)) l
  <-> ~ Forall (fun x => Spec.terminal (Task.status x)) l.
Proof.
  induction l as [|x l IH].
  - split; [intros H; inversion H | intros H; destruct H; constructor].
  - split.
    + intros H HF. inversion HF as [|? ? Hx Hl]; subst.
      inversion H as [? ? Hu | ? ? He]; subst.
      * eapply status_not_both; eauto.
      * apply IH in He. contradiction.
    + intros H. destruct (status_or (Task.status x)) as [Hu | Ht].
      * now left.
      * right. apply IH. intros HF. apply H. now constructor.
Qed.

Lemma allDone_spec state :
  allDone state = true
  <-> Forall (fun x => Spec.terminal (Task.status x)) (Spec.tasks state).
Proof.
  unfold allDone, Spec.tasks, Spec.terminal.
  rewrite forallb_forall, Forall_get. split.
  - intros H r x Hx. specialize (H r).
    rewrite in_values in H. specialize (H (get_Some_lt _ _ _ Hx)).
    apply orb_true_iff in H. rewrite !status_is_true in H.
    destruct H as [(y & Hy & Hs) | (y & Hy & Hs)]; rewrite Hx in Hy;
      injection Hy as <-; tauto.
  - intros H r Hr. apply in_values, get_lt_Some in Hr. destruct Hr as [x Hx].
    apply orb_true_iff. rewrite !status_is_true.
    destruct (H r x Hx); [left | right]; eauto.
Qed.

(** The two ways a wake can go. *)
Lemma executeBatch_cases state :
  let out := executeBatch state config env api clock in
  (pendingTasks state config = []
   /\ more_work out = negb (allDone state) /\ state_after out = state)
  \/ (exists r0 rest, pendingTasks state config = r0 :: rest /\ more_work out = true).
Proof.
  cbv zeta. unfold executeBatch.
  destruct (pendingTasks state config) as [|r0 rest].
  - left. cbn [List.length Nat.eqb]. now destruct (allDone state).
  - right. exists r0, rest. cbn [List.length Nat.eqb].
    now destruct (allSettled (r0 :: rest) 0 state config env api) as [[? ?] ?].
Qed.

Lemma status_after_spawn x answer now :
  Task.status x = pending ->
  Spec.unfinished (Task.status (Spec.after_spawn x answer now)).
Proof.
  intros Hx. unfold Spec.unfinished.
  destruct answer as [reason | [|] status text [id|]]; cbn; auto.
Qed.

(** C3.  [executeBatch] returns [true] exactly when, once the spawn
    results of the wake are applied, some task of the batch is [pending] or
    [processing]; it returns [false] exactly when every task is [completed]
    or [failed], which includes the batch without tasks. *)
Theorem executeBatch_more_work (state : BatchState.t) :
  let out := executeBatch state config env api clock in
  (more_work out = true
   <-> Exists (fun x => Spec.unfinished (Task.status x)) (Spec.tasks (state_after out)))
  /\ (more_work out = false
      <-> Forall (fun x => Spec.terminal (Task.status x)) (Spec.tasks (state_after out))).
Proof.
  cbv zeta.
  assert (Hiff :
    more_work (executeBatch state config env api clock) = true
    <-> Exists (fun x => Spec.unfinished (Task.status x))
               (Spec.tasks (state_after (executeBatch state config env api clock)))).
  { destruct (executeBatch_cases state) as [(Hps & Hmore & Hst) | (r0 & rest & Hps & Hmore)].
    - rewrite Hmore, Hst, Exists_unfinished, <- allDone_spec.
      destruct (allDone state); cbn; split; congruence.
    - rewrite Hmore. split; [intros _ | reflexivity].
      destruct (executeBatch_spec config env api clock state) as (_ & _ & _ & _ & Hin).
      assert (Hr0 : In r0 (pendingTasks state config)) by (rewrite Hps; now left).
      apply pendingTasks_pending in Hr0. destruct Hr0 as [Hs _].
      apply status_is_true in Hs. destruct Hs as (x0 & Hx0 & Hs0).
      apply Exists_get. exists r0. eexists. split.
      + apply (Hin 0%nat r0 x0); [now rewrite Hps | exact Hx0].
      + now apply status_after_spawn. }
  split; [exact Hiff|].
  rewrite <- not_true_iff_false, Hiff, Exists_unfinished. split.
  - intros H.
    destruct (Forall_dec (fun x => Spec.terminal (Task.status x))
                (fun x => ltac:(unfold Spec.terminal; destruct (Task.status x);
                                  ((left; tauto) || (right; intros [H0 | H0]; discriminate H0))))
                (Spec.tasks (state_after (executeBatch state config env api clock))))
      as [HF | HF]; [exact HF | contradiction].
  - tauto.
Qed.

(** C4.  In one call of [executeBatch], with a batch size that is not
    negative, at most [BATCH_SIZE_TIFF_CONVERSION] tasks are selected;
    exactly one spawn request is sent for each, in order; and every
    selected task is [pending] in the state the call starts from. *)
Theorem executeBatch_spawn_bound (state : BatchState.t) :
  0 <= BATCH_SIZE_TIFF_CONVERSION config ->
  let out := executeBatch state config env api clock in
  let selected :=
    Spec.deref (BatchState.current_phase_tasks state) (pendingTasks state config) in
  Z.of_nat (List.length selected) <= BATCH_SIZE_TIFF_CONVERSION config
  /\ requests out = map (fun x => machineConfig x state config env) selected
  /\ Z.of_nat (List.length (requests out)) <= BATCH_SIZE_TIFF_CONVERSION config
  /\ Forall (fun x => Task.status x = pending) selected.
Proof.
  intros Hn. cbv zeta.
  destruct (executeBatch_spec config env api clock state) as (_ & _ & Hreq & _ & _).
  assert (Hlen : Z.of_nat (List.length
                   (Spec.deref (BatchState.current_phase_tasks state)
                      (pendingTasks state config)))
                 <= BATCH_SIZE_TIFF_CONVERSION config).
  { rewrite length_deref.
    - unfold pendingTasks. cbv zeta. rewrite slice0_firstn by exact Hn.
      match goal with
      | |- context [List.length (firstn ?n ?l)] => pose proof (firstn_le_length n l)
      end.
      apply Nat2Z.inj_le in H. now rewrite Z2Nat.id in H.
    - apply Forall_forall. intros r Hr. now apply pendingTasks_pending in Hr. }
  repeat apply conj.
  - exact Hlen.
  - exact Hreq.
  - rewrite Hreq, length_map. exact Hlen.
  - unfold pendingTasks, JS.slice0.
    rewrite deref_firstn, deref_filter.
    + apply Forall_forall. intros x Hx. apply In_firstn_In, filter_In in Hx.
      destruct Hx as [_ Hx]. now destruct (Task.status x).
    + apply Forall_forall. intros r Hr. apply filter_In in Hr.
      now apply in_values.
Qed.

(** C9, as the code has it.  With a batch size [n] that is not negative,
    the tasks selected are the first [n] pending tasks in the enumeration
    order of [current_phase_tasks] (the order in which the tasks were
    entered), a function of the state and of [n]; the task ids are not
    compared. *)
Theorem pendingTasks_in_map_order (state : BatchState.t) :
  0 <= BATCH_SIZE_TIFF_CONVERSION config ->
  Spec.deref (BatchState.current_phase_tasks state) (pendingTasks state config)
  = Spec.first_pending_in_order state (Z.to_nat (BATCH_SIZE_TIFF_CONVERSION config)).
Proof.
  intros Hn. unfold pendingTasks, Spec.first_pending_in_order, Spec.tasks.
  rewrite slice0_firstn by exact Hn.
  rewrite deref_firstn, deref_filter, deref_values; [reflexivity|].
  apply Forall_forall. intros r Hr. apply filter_In in Hr. now apply in_values.
Qed.

End ExecuteBatchClaims.

Section SpawnFailureClaims.

Import TiffConversionPhase.
Local Open Scope list_scope.

Variables (config : Config) (env : Env) (api : Fly.Api) (clock : nat -> string).

(** How the [k]-th promise settles is read off the answer to the request
    of its task. *)
Lemma spawn_settles_spec state k r x :
  Store.get (BatchState.current_phase_tasks state) r = Some x ->
  Spec.spawn_settles state config env api k r
  = Spec.settles (api k (machineConfig x state config env)).
Proof.
  intros Hx. unfold Spec.spawn_settles.
  destruct (spawnFlyMachine_spec config env r state (api k) x Hx) as (state' & E & _).
  now rewrite E.
Qed.

Lemma after_spawn_rejected x answer now reason :
  Spec.settles answer = rejected reason -> Spec.after_spawn x answer now = x.
Proof.
  destruct answer as [why | [|] status text [id|]]; cbn; intros H;
    solve [reflexivity | discriminate H].
Qed.

Lemma after_spawn_fulfilled x answer now :
  Spec.settles answer = fulfilled ->
  Task.status (Spec.after_spawn x answer now) = processing
  /\ Task.started_at (Spec.after_spawn x answer now) = Some now
  /\ Task.retry_count (Spec.after_spawn x answer now) = Task.retry_count x.
Proof.
  destruct answer as [why | [|] status text [id|]]; cbn; intros H;
    solve [discriminate H | repeat split].
Qed.

Lemma after_spawn_changed x answer now :
  Spec.after_spawn x answer now <> x -> Spec.settles answer = fulfilled.
Proof.
  destruct answer as [why | [|] status text [id|]]; cbn; intros H;
    solve [reflexivity | contradiction H; reflexivity].
Qed.

(** C6.  A wake changes no counter of the batch.  A selected task whose
    spawn request fails is left as it was: [pending], with the same
    [retry_count].  A selected task whose spawn succeeds becomes
    [processing] with [started_at] set, its [retry_count] unchanged.  A
    task that the wake changes at all is a selected task whose spawn
    succeeded.  (The last part says that "the spawn of the [k]-th selected
    task fails or succeeds" is read off the results of [Promise.allSettled]
    in the run.) *)
Theorem executeBatch_spawn_failure (state : BatchState.t) :
  let out := executeBatch state config env api clock in
  let o := BatchState.current_phase_tasks state in
  let o' := BatchState.current_phase_tasks (state_after out) in
  (BatchState.tasks_total (state_after out) = BatchState.tasks_total state
   /\ BatchState.tasks_completed (state_after out) = BatchState.tasks_completed state
   /\ BatchState.tasks_failed (state_after out) = BatchState.tasks_failed state)
  /\ (forall k r x reason,
        nth_error (pendingTasks state config) k = Some r ->
        Store.get o r = Some x ->
        Spec.spawn_settles state config env api k r = rejected reason ->
        Task.status x = pending /\ Store.get o' r = Some x)
  /\ (forall k r x,
        nth_error (pendingTasks state config) k = Some r ->
        Store.get o r = Some x ->
        Spec.spawn_settles state config env api k r = fulfilled ->
        exists x',
          Store.get o' r = Some x'
          /\ Task.status x' = processing
          /\ Task.started_at x' = Some (clock k)
          /\ Task.retry_count x' = Task.retry_count x)
  /\ (forall r x x',
        Store.get o r = Some x ->
        Store.get o' r = Some x' ->
        x' <> x ->
        exists k,
          nth_error (pendingTasks state config) k = Some r
          /\ Spec.spawn_settles state config env api k r = fulfilled)
  /\ (forall k r,
        nth_error (pendingTasks state config) k = Some r ->
        nth_error
          (snd (fst (allSettled (pendingTasks state config) 0 state config env api))) k
        = Some (Spec.spawn_settles state config env api k r)).
Proof.
  cbv zeta.
  destruct (executeBatch_spec config env api clock state)
    as (Hsame & _ & _ & Hout & Hin).
  repeat apply conj.
  - unfold Spec.same_batch_fields in Hsame. now rewrite Hsame.
  - unfold Spec.same_batch_fields in Hsame. now rewrite Hsame.
  - unfold Spec.same_batch_fields in Hsame. now rewrite Hsame.
  - intros k r x reason Hk Hx Hrej.
    rewrite (spawn_settles_spec _ _ _ _ Hx) in Hrej. split.
    + apply nth_error_In, pendingTasks_pending in Hk. destruct Hk as [Hs _].
      apply status_is_true in Hs. destruct Hs as (y & Hy & Hs). congruence.
    + rewrite (Hin _ _ _ Hk Hx). f_equal. eapply after_spawn_rejected; eauto.
  - intros k r x Hk Hx Hful.
    rewrite (spawn_settles_spec _ _ _ _ Hx) in Hful.
    eexists. split; [apply (Hin _ _ _ Hk Hx)|].
    now apply after_spawn_fulfilled.
  - intros r x x' Hx Hx' Hne.
    destruct (in_dec Nat.eq_dec r (pendingTasks state config)) as [Hr | Hr].
    + apply In_nth_error in Hr. destruct Hr as [k Hk]. exists k. split; [exact Hk|].
      rewrite (spawn_settles_spec _ _ _ _ Hx).
      rewrite (Hin _ _ _ Hk Hx) in Hx'. injection Hx' as <-.
      eapply after_spawn_changed; eauto.
    + rewrite (Hout _ Hr), Hx in Hx'. congruence.
  - intros k r Hk.
    assert (Hval : Forall (fun r => (r < List.length (BatchState.current_phase_tasks state))%nat)
                          (pendingTasks state config)).
    { apply Forall_forall. intros r' Hr'. now apply pendingTasks_pending in Hr'. }
    destruct (allSettled (pendingTasks state config) 0 state config env api)
      as [[sent results] state1] eqn:E.
    destruct (allSettled_spec config env api _ _ _ _ _ _
                (pendingTasks_NoDup config state) Hval E) as (_ & _ & _ & _ & _ & Hres).
    pose proof (nth_error_In _ _ Hk) as Hr. apply pendingTasks_pending in Hr.
    destruct Hr as [_ Hr]. apply get_lt_Some in Hr. destruct Hr as [x Hx].
    rewrite (spawn_settles_spec _ _ _ _ Hx).
    apply (Hres k r x Hk Hx).
Qed.

End SpawnFailureClaims.

Section ExecuteBatchWitnesses.

Import TiffConversionPhase.
Local Open Scope list_scope.

(** A first wake over the two tasks of the mixed-types scenario, in which
    the API creates the first machine and refuses the second. *)
Example executeBatch_first_only :
  let out := executeBatch Examples.two_pending (Examples.config 2) Examples.env
               Examples.api_first_only Examples.clock in
  more_work out = true
  /\ List.length (requests out) = 2%nat
  /\ map (fun e => Task.status (snd e)) (BatchState.current_phase_tasks (state_after out))
     = [processing; pending].
Proof. vm_compute. repeat split. Qed.

(** Outside the sizes: a batch size of -1 makes [slice(0, -1)] drop the
    last pending task and keep the others. *)
Example pendingTasks_negative_size :
  pendingTasks Examples.two_pending (Examples.config (-1)) = [0%nat].
Proof. reflexivity. Qed.

Lemma executeBatch_spawn_bound_witness :
  let out := executeBatch Examples.two_pending (Examples.config 1) Examples.env
               Examples.api_ok Examples.clock in
  let selected :=
    Spec.deref (BatchState.current_phase_tasks Examples.two_pending)
      (pendingTasks Examples.two_pending (Examples.config 1)) in
  Z.of_nat (List.length selected) <= 1
  /\ requests out
     = map (fun x => machineConfig x Examples.two_pending (Examples.config 1) Examples.env)
           selected
  /\ Z.of_nat (List.length (requests out)) <= 1
  /\ Forall (fun x => Task.status x = pending) selected.
Proof.
  apply (executeBatch_spawn_bound (Examples.config 1) Examples.env Examples.api_ok
           Examples.clock Examples.two_pending).
  cbn. lia.
Defined.

Lemma executeBatch_spawn_failure_witness :
  Task.status (Examples.c_tif pending) = pending
  /\ Store.get
       (BatchState.current_phase_tasks
          (state_after
             (executeBatch Examples.two_pending (Examples.config 2) Examples.env
                Examples.api_first_only Examples.clock))) 1%nat
     = Some (Examples.c_tif pending).
Proof.
  apply (proj1 (proj2 (executeBatch_spawn_failure (Examples.config 2) Examples.env
                         Examples.api_first_only Examples.clock Examples.two_pending))
           1%nat 1%nat (Examples.c_tif pending) (FlyApiError 500 "internal error"));
    reflexivity.
Defined.

Lemma pendingTasks_in_map_order_witness :
  Spec.deref (BatchState.current_phase_tasks Examples.two_pending)
    (pendingTasks Examples.two_pending (Examples.config 1))
  = Spec.first_pending_in_order Examples.two_pending 1.
Proof.
  apply (pendingTasks_in_map_order (Examples.config 1) Examples.two_pending).
  cbn. lia.
Defined.

(** C9, as the specification has it, fails: of the two pending tasks of
    the mixed-types scenario, entered in the order of discovery, a batch
    size of 1 selects [B1_tiff_f4dk12], which comes first in the map, and
    not [B1_tiff_e9kdya], which comes first in the lexicographic order. *)
Lemma pendingTasks_not_lexicographic :
  Spec.deref (BatchState.current_phase_tasks Examples.two_pending)
    (pendingTasks Examples.two_pending (Examples.config 1))
  = [Examples.a_tiff pending]
  /\ Spec.first_pending_by_id Examples.two_pending 1 = [Examples.c_tif pending]
  /\ Spec.deref (BatchState.current_phase_tasks Examples.two_pending)
       (pendingTasks Examples.two_pending (Examples.config 1))
     <> Spec.first_pending_by_id Examples.two_pending 1.
Proof.
  repeat apply conj; try (vm_compute; reflexivity).
  vm_compute. discriminate.
Qed.

End ExecuteBatchWitnesses.

(* ------------------------------------------------------------------ *)
(** ** Callbacks *)

Section CallbackClaims.

Import TiffConversionPhase.
Local Open Scope list_scope.

(** C1, as the specification has it, fails.  The worker-error scenario: the
    task is spawned, its worker reports ["sharp failure"], and the task has
    never been retried.  [handleCallback] makes the task [failed], not
    [pending]; its [retry_count] stays 0; and [tasks_failed] goes from 0 to
    1. *)
Lemma handleCallback_error_not_retried :
  let r := handleCallback (Examples.a_tiff processing) Examples.callback_error
             Examples.one_processing "2025-01-15T10:31:09.000Z" in
  Task.retry_count (Examples.a_tiff processing) = 0
  /\ Task.status (fst r) = failed
  /\ Task.status (fst r) <> pending
  /\ Task.retry_count (fst r) = 0
  /\ Task.retry_count (fst r) <> Task.retry_count (Examples.a_tiff processing) + 1
  /\ BatchState.tasks_failed Examples.one_processing = 0
  /\ BatchState.tasks_failed (snd r) = 1.
Proof.
  cbv zeta. repeat apply conj; try (vm_compute; reflexivity);
    vm_compute; discriminate.
Qed.

(** C1, as the code has it.  On a callback with status [error],
    [handleCallback] makes the task [failed] at once, whatever its
    [retry_count]: it records the error of the callback, leaves
    [retry_count] and every other property of the task as they are, adds
    one to [tasks_failed] and leaves the rest of the batch state as it
    is. *)
Theorem handleCallback_error (task : Task.t) (result : Callback.TiffCallbackResult)
    (state : BatchState.t) (now : string) :
  Callback.status result = "error" ->
  let r := handleCallback task result state now in
  fst r = Task.set_error (Callback.error result) (Task.set_status failed task)
  /\ Task.status (fst r) = failed
  /\ Task.error (fst r) = Callback.error result
  /\ Task.retry_count (fst r) = Task.retry_count task
  /\ snd r = BatchState.set_tasks_failed (BatchState.tasks_failed state + 1) state
  /\ BatchState.tasks_failed (snd r) = BatchState.tasks_failed state + 1
  /\ BatchState.tasks_completed (snd r) = BatchState.tasks_completed state.
Proof.
  intros Hs. cbv zeta. unfold handleCallback. rewrite Hs.
  change (("error" =? "success")%string) with false. cbv iota. repeat split.
Qed.

Lemma handleCallback_error_witness :
  let r := handleCallback (Examples.a_tiff processing) Examples.callback_error
             Examples.one_processing "2025-01-15T10:31:09.000Z" in
  fst r = Task.set_error (Some "sharp failure")
            (Task.set_status failed (Examples.a_tiff processing))
  /\ Task.status (fst r) = failed
  /\ Task.error (fst r) = Some "sharp failure"
  /\ Task.retry_count (fst r) = 0
  /\ snd r = BatchState.set_tasks_failed 1 Examples.one_processing
  /\ BatchState.tasks_failed (snd r) = 1
  /\ BatchState.tasks_completed (snd r) = 0.
Proof.
  apply (handleCallback_error (Examples.a_tiff processing) Examples.callback_error
           Examples.one_processing "2025-01-15T10:31:09.000Z").
  reflexivity.
Defined.



Lemma lookup_from_keys o : forall o' key r,
  map fst o = map fst o' ->
  Store.lookup_from o key r = Store.lookup_from o' key r.
Proof.
  induction o as [|[k x] o IH]; intros [|[k' x'] o'] key r E; cbn in E;
    try discriminate E; [reflexivity|].
  injection E as -> E. cbn. destruct (String.eqb k' key); [reflexivity | now apply IH].
Qed.

Lemma update_update_const o : forall r (x y : Task.t),
  Store.update (Store.update o r (fun _ => x)) r (fun _ => y)
  = Store.update o r (fun _ => y).
Proof.
  induction o as [|[k z] o IH]; intros [|r] x y; cbn; auto.
  now rewrite IH.
Qed.

(** The same on the state, for the call on a task object of the map: a
    second application of a payload to the object leaves the task map that
    the first one left, under the same keys, and adds one more to the
    counter. *)
Lemma handleCallback_on_twice state result now r x :
  Store.get (BatchState.current_phase_tasks state) r = Some x ->
  let once := Measure.handleCallback_on r result state now in
  let twice := Measure.handleCallback_on r result once now in
  (forall key,
     Store.lookup (BatchState.current_phase_tasks once) key
     = Store.lookup (BatchState.current_phase_tasks state) key)
  /\ twice
     = if String.eqb (Callback.status result) "success"
       then BatchState.set_tasks_completed (BatchState.tasks_completed once + 1) once
       else BatchState.set_tasks_failed (BatchState.tasks_failed once + 1) once.
Proof.
  intros Hg. cbv zeta.
  assert (Hstep : forall st y,
            Store.get (BatchState.current_phase_tasks st) r = Some y ->
            Measure.handleCallback_on r result st now
            = BatchState.set_tasks
                (Store.update (BatchState.current_phase_tasks st) r
                   (fun _ => fst (handleCallback y result st now)))
                (snd (handleCallback y result st now))).
  { intros st y Hg'. unfold Measure.handleCallback_on. rewrite Hg'.
    destruct (handleCallback y result st now) as [y' st'] eqn:E. cbn [fst snd].
    f_equal. f_equal. unfold handleCallback in E.
    destruct (String.eqb (Callback.status result) "success");
      injection E as _ <-; now destruct st. }
  rewrite (Hstep state x Hg).
  set (x1 := fst (handleCallback x result state now)).
  set (s1 := snd (handleCallback x result state now)).
  set (o1 := Store.update (BatchState.current_phase_tasks state) r (fun _ => x1)).
  split.
  { intros key. cbn. unfold Store.lookup. apply lookup_from_keys.
    subst o1. apply keys_update. }
  assert (Hg1 : Store.get (BatchState.current_phase_tasks (BatchState.set_tasks o1 s1)) r
                = Some x1).
  { cbn. subst o1. now rewrite get_update_same, Hg. }
  rewrite (Hstep _ x1 Hg1).
  subst o1 x1 s1. unfold handleCallback.
  destruct (String.eqb (Callback.status result) "success"); cbn [fst snd];
    destruct state; cbn; now rewrite update_update_const.
Qed.

End CallbackClaims.

(* ------------------------------------------------------------------ *)
(** ** The callback route *)

Section CallbackRoute.

Import Worker.
Local Open Scope list_scope.

Lemma prefix_app p : forall s,
  String.prefix p s = true -> exists s', s = (p ++ s')%string.
Proof.
  induction p as [|a p IH]; intros s H.
  - now exists s.
  - destruct s as [|b s]; cbn in H; [discriminate H|].
    destruct (ascii_dec a b) as [<- | _]; [|discriminate H].
    destruct (IH s H) as [s' ->]. now exists s'.
Qed.

(** The pieces of a path under [/callback/]. *)
Lemma split_callback s' :
  JS.split ("/callback/" ++ s') "/" = "" :: "callback" :: JS.split s' "/".
Proof. reflexivity. Qed.

Lemma split_from_cons sep s : forall cur,
  exists piece pieces, JS.split_from sep s cur = piece :: pieces.
Proof.
  induction s as [|c s IH]; intros cur; cbn.
  - now exists cur, [].
  - destruct (Ascii.eqb c sep); [now exists cur, (JS.split_from sep s "") | apply IH].
Qed.

Lemma falsy_false s : JS.falsy s = false <-> exists v, s = Some v /\ v <> "".
Proof.
  destruct s as [v|]; cbn.
  - rewrite String.eqb_neq. split; [intros H; now exists v | intros (v' & [= <-] & H); exact H].
  - split; [discriminate | intros (v & [=] & _)].
Qed.

(** On a path under [/callback/], the test of the handler for a missing id
    is the test that the path names no batch and task. *)
Lemma missing_id_malformed path :
  JS.startsWith path "/callback/" = true ->
  JS.falsy (nth_error (JS.split path "/") 2) || JS.falsy (nth_error (JS.split path "/") 3) = true
  <-> Spec.malformed_path path.
Proof.
  intros Hp. apply prefix_app in Hp. destruct Hp as [s' ->].
  unfold Spec.malformed_path, Spec.callback_path. rewrite split_callback.
  cbn [nth_error]. generalize (JS.split s' "/"). intros l. split.
  - intros H b t (Hb & Ht & rest & E). injection E as ->.
    cbn in H. apply String.eqb_neq in Hb, Ht. rewrite Hb, Ht in H. discriminate H.
  - intros H. destruct l as [|b [|t rest]]; cbn [JS.falsy].
    + reflexivity.
    + apply orb_true_r.
    + destruct (String.eqb_spec b "") as [|Hb]; [reflexivity|].
      destruct (String.eqb_spec t "") as [|Ht]; [reflexivity|].
      exfalso. apply (H b t). repeat split; auto. now exists rest.
Qed.

Lemma callback_path_ids path batch_id task_id :
  Spec.callback_path path batch_id task_id ->
  nth_error (JS.split path "/") 2 = Some batch_id
  /\ nth_error (JS.split path "/") 3 = Some task_id
  /\ JS.falsy (Some batch_id) || JS.falsy (Some task_id) = false.
Proof.
  intros (Hb & Ht & rest & ->). cbn.
  apply String.eqb_neq in Hb, Ht. now rewrite Hb, Ht.
Qed.

(** Under [/callback/] with [POST], the handler is at the callback
    branch of its routes. *)
Lemma fetch_callback_branch {W} (ns : Namespace W) request now w :
  method request = "POST" ->
  JS.startsWith (pathname request) "/callback/" = true ->
  fetch ns request now w
  = let parts := JS.split (pathname request) "/" in
    if JS.falsy (nth_error parts 2) || JS.falsy (nth_error parts 3) then
      ({| status := 400; headers := jsonHeaders;
          body := Stringified (JObj [("error", JStr "Missing batch ID or task ID")]) |}, w)
    else
      match json_body request with
      | Throw e =>
          ({| status := 500; headers := jsonHeaders;
              body := Stringified (JObj [("error", JStr (message e))]) |}, w)
      | Return callbackResult =>
          match handleCallback ns
                  match nth_error parts 2 with Some b => b | None => "" end
                  match nth_error parts 3 with Some t => t | None => "" end
                  callbackResult w with
          | (Throw e, w') =>
              ({| status := 500; headers := jsonHeaders;
                  body := Stringified (JObj [("error", JStr (message e))]) |}, w')
          | (Return _, w') =>
              ({| status := 200; headers := jsonHeaders;
                  body := Stringified (JObj [("ok", JBool true)]) |}, w')
          end
      end.
Proof.
  intros Hm Hp.
  destruct (prefix_app _ _ Hp) as [s' Es].
  assert (H1 : (pathname request =? "/health")%string = false)
    by (rewrite Es; reflexivity).
  assert (H2 : JS.startsWith (pathname request) "/status/" = false)
    by (rewrite Es; reflexivity).
  unfold fetch, route. rewrite Hm, H1, H2, Hp. cbv zeta.
  change (("POST" =? "OPTIONS")%string) with false.
  change (("POST" =? "POST")%string) with true. cbv iota. cbn [andb].
  destruct (JS.falsy (nth_error (JS.split (pathname request) "/") 2)
            || JS.falsy (nth_error (JS.split (pathname request) "/") 3));
    [reflexivity|].
  destruct (json_body request) as [callbackResult | e]; [|reflexivity].
  destruct (handleCallback ns _ _ callbackResult w) as [[[] | e] w']; reflexivity.
Qed.

(** C8, as the code has it.  For a [POST] under [/callback/]:
    - when the path lacks the batch id or the task id, the response is 400
      and no state is touched;
    - when the path names both and the body is not JSON, the exception of
      [request.json()] reaches the [catch] of the handler: the response is
      500, not a 4xx, and no state is touched (the orchestrator is not
      called);
    - when the path names both and the body parses, the orchestrator is
      called with the two ids and the parsed body; the response is 200
      [{ok:true}] when that call returns, and 500 when it throws.
    So the response is a 4xx exactly when the path is malformed. *)
Theorem callback_route_responses {W} (ns : Namespace W)
    (request : Request) (now : string) (w : W) :
  method request = "POST" ->
  JS.startsWith (pathname request) "/callback/" = true ->
  let r := fetch ns request now w in
  (Spec.malformed_path (pathname request) -> status (fst r) = 400 /\ snd r = w)
  /\ (forall batch_id task_id,
        Spec.callback_path (pathname request) batch_id task_id ->
        match json_body request with
        | Throw e => status (fst r) = 500 /\ snd r = w
        | Return payload =>
            match handleCallback ns batch_id task_id payload w with
            | (Return _, w') =>
                fst r = {| status := 200; headers := jsonHeaders;
                           body := Stringified (JObj [("ok", JBool true)]) |}
                /\ snd r = w'
            | (Throw e, w') => status (fst r) = 500 /\ snd r = w'
            end
        end)
  /\ (Spec.is_4xx (fst r) <-> Spec.malformed_path (pathname request)).
Proof.
  intros Hm Hp. cbv zeta. rewrite (fetch_callback_branch ns request now w Hm Hp).
  cbv zeta. pose proof (missing_id_malformed _ Hp) as Hmal.
  assert (Hgood : forall batch_id task_id,
             Spec.callback_path (pathname request) batch_id task_id ->
             ~ Spec.malformed_path (pathname request))
    by (intros b t Hc H; exact (H b t Hc)).
  split; [|split].
  - intros H. apply Hmal in H. rewrite H. now split.
  - intros b t Hc.
    destruct (callback_path_ids _ _ _ Hc) as (E2 & E3 & Hf).
    rewrite E2, E3, Hf.
    destruct (json_body request) as [payload | e]; [|now split].
    destruct (handleCallback ns b t payload w) as [[[] | e] w']; now split.
  - unfold Spec.is_4xx. rewrite <- Hmal.
    destruct (JS.falsy (nth_error (JS.split (pathname request) "/") 2)
              || JS.falsy (nth_error (JS.split (pathname request) "/") 3)).
    + cbn. split; [reflexivity | lia].
    + destruct (json_body request) as [payload | e].
      * destruct (handleCallback ns _ _ payload w) as [[[] | e] w']; cbn;
          split; intros H; solve [discriminate H | lia].
      * cbn. split; intros H; solve [discriminate H | lia].
Qed.

End CallbackRoute.

Section CallbackRouteWitnesses.

Import Worker.
Local Open Scope list_scope.

(** C8, as the specification has it, fails.  A [POST] to
    [/callback/B1/B1_tiff_f4dk12], a path that names a batch and a task,
    with a body that is not JSON, is answered 500 and not with a 4xx.  (No
    callback reaches the orchestrator: its log stays empty.) *)
Lemma callback_malformed_json_is_500 :
  let r := fetch Examples.logging_namespace Examples.post_bad_json
             "2025-01-15T10:31:09.000Z" [] in
  Spec.callback_path (pathname Examples.post_bad_json) "B1" "B1_tiff_f4dk12"
  /\ Spec.malformed_json Examples.post_bad_json
  /\ status (fst r) = 500
  /\ ~ Spec.is_4xx (fst r)
  /\ Spec.is_5xx (fst r)
  /\ snd r = [].
Proof.
  cbv zeta. split; [|split; [|split; [|split; [|split]]]].
  - unfold Spec.callback_path. repeat split; try discriminate. now exists [].
  - eexists. reflexivity.
  - reflexivity.
  - unfold Spec.is_4xx. cbn. lia.
  - unfold Spec.is_5xx. cbn. lia.
  - reflexivity.
Qed.

Lemma callback_route_responses_witness :
  let r := fetch Examples.logging_namespace Examples.post_good
             "2025-01-15T10:31:09.000Z" [] in
  (Spec.malformed_path (pathname Examples.post_good) -> status (fst r) = 400 /\ snd r = [])
  /\ (forall batch_id task_id,
        Spec.callback_path (pathname Examples.post_good) batch_id task_id ->
        fst r = {| status := 200; headers := jsonHeaders;
                   body := Stringified (JObj [("ok", JBool true)]) |}
        /\ snd r = [(batch_id, task_id)])
  /\ (Spec.is_4xx (fst r) <-> Spec.malformed_path (pathname Examples.post_good)).
Proof.
  apply (callback_route_responses Examples.logging_namespace Examples.post_good
           "2025-01-15T10:31:09.000Z" []); reflexivity.
Defined.

(** The three answers of the callback route, on the example requests. *)
Example callback_route_statuses :
  let answer request :=
    status (fst (fetch Examples.logging_namespace request "2025-01-15T10:31:09.000Z" [])) in
  answer Examples.post_good = 200
  /\ answer Examples.post_no_task = 400
  /\ answer Examples.post_bad_json = 500.
Proof. cbv zeta. repeat split. Qed.

End CallbackRouteWitnesses.

(* ================================================================== *)
(** * Further properties of the code *)

(* ------------------------------------------------------------------ *)
(** ** Task ids *)

Section TaskIdExtras.

Import TaskId.

Lemma is_digit36_char d : 0 <= d < 36 -> Measure.is_digit36 (JS.digit_char d) = true.
Proof.
  intros H.
  assert (Hd : In d (map Z.of_nat (seq 0 36))).
  { apply in_map_iff. exists (Z.to_nat d). split; [lia|]. apply in_seq. lia. }
  cbn in Hd.
  repeat (destruct Hd as [<- | Hd]; [vm_compute; reflexivity|]).
  destruct Hd.
Qed.

Lemma digits36_all_digits fuel : forall n acc,
  Measure.all_digits36 acc = true ->
  Measure.all_digits36 (JS.digits36 fuel n acc) = true.
Proof.
  induction fuel as [|fuel IH]; intros n acc Hacc; cbn [JS.digits36]; [exact Hacc|].
  assert (Hacc' : Measure.all_digits36 (String (JS.digit_char (n mod 36)) acc) = true).
  { cbn [Measure.all_digits36]. rewrite Hacc, is_digit36_char; [reflexivity|].
    apply Z.mod_pos_bound. lia. }
  destruct (n / 36 =? 0); [exact Hacc' | now apply IH].
Qed.

Lemma digits36_nonempty fuel : forall n acc,
  acc <> "" -> JS.digits36 fuel n acc <> "".
Proof.
  induction fuel as [|fuel IH]; intros n acc Hacc; cbn [JS.digits36]; [exact Hacc|].
  destruct (n / 36 =? 0); [discriminate | apply IH; discriminate].
Qed.

Lemma toString36_digits n :
  Measure.all_digits36 (JS.toString36 n) = true /\ JS.toString36 n <> "".
Proof.
  unfold JS.toString36. split.
  - now apply digits36_all_digits.
  - cbn [JS.digits36]. destruct (n / 36 =? 0); [discriminate|].
    apply digits36_nonempty. discriminate.
Qed.

(** X1.  [simpleHash] writes the absolute value of the hash and nothing else:
    its result is a non-empty string of the digits [0-9a-z] which, read in
    base 36, is the absolute value of the 32-bit hash of the key, a number
    from 0 to 2^31. *)
Theorem simpleHash_reads_back (str : string) :
  Measure.all_digits36 (simpleHash str) = true
  /\ simpleHash str <> ""
  /\ Spec.value36 (simpleHash str) 0 = Z.abs (hash_loop str 0)
  /\ 0 <= Spec.value36 (simpleHash str) 0 <= 2147483648.
Proof.
  unfold simpleHash.
  destruct (toString36_digits (Z.abs (hash_loop str 0))) as [Hd Hne].
  rewrite toString36_value by apply Z.abs_nonneg.
  pose proof (hash_loop_range str). repeat split; auto; lia.
Qed.

Lemma hash_loop_app s1 : forall s2 h,
  hash_loop (s1 ++ s2) h = hash_loop s2 (hash_loop s1 h).
Proof.
  induction s1 as [|c s1 IH]; intros s2 h; [reflexivity|].
  cbn [append]. rewrite !hash_loop_String. apply IH.
Qed.

Lemma poly31_shift s : forall a,
  Spec.poly31 s a = a * 31 ^ Z.of_nat (String.length s) + Spec.poly31 s 0.
Proof.
  induction s as [|c s IH]; intros a.
  - cbn. lia.
  - rewrite !poly31_String, (IH (31 * a + JS.charCode c)), (IH (31 * 0 + JS.charCode c)).
    cbn [String.length]. rewrite Nat2Z.inj_succ, Z.pow_succ_r by lia. ring.
Qed.

Lemma to_int32_add_congr a x y :
  JS.to_int32 x = JS.to_int32 y -> JS.to_int32 (a + x) = JS.to_int32 (a + y).
Proof.
  intros E.
  destruct (to_int32_eqm x) as [q Hq]. destruct (to_int32_eqm y) as [q' Hq'].
  replace (a + x) with (a + y + (q' - q) * 4294967296) by lia.
  apply to_int32_shift.
Qed.

(** X2.  Collisions spread.  When two keys of the same length have the same
    hash, so have the keys made of them by putting one prefix in front of
    both and one suffix behind both: in every batch these get the same
    task id. *)
Theorem collision_extends (k1 k2 prefix suffix batchId : string) :
  String.length k1 = String.length k2 ->
  hash_loop k1 0 = hash_loop k2 0 ->
  generateTaskId batchId (prefix ++ k1 ++ suffix)
  = generateTaskId batchId (prefix ++ k2 ++ suffix).
Proof.
  intros Hlen Hh.
  assert (H : hash_loop (prefix ++ k1 ++ suffix) 0 = hash_loop (prefix ++ k2 ++ suffix) 0).
  { rewrite !hash_loop_app. f_equal.
    rewrite (hash_loop_poly31 prefix), !hash_loop_closed.
    rewrite (poly31_shift k1), (poly31_shift k2), Hlen.
    rewrite !hash_loop_poly31 in Hh. now apply to_int32_add_congr. }
  unfold generateTaskId, simpleHash. now rewrite H.
Qed.

Lemma collision_extends_witness :
  generateTaskId "B2" ("staging/B2/" ++ "Aa" ++ "_scan.tif")
  = generateTaskId "B2" ("staging/B2/" ++ "BB" ++ "_scan.tif").
Proof.
  apply (collision_extends "Aa" "BB" "staging/B2/" "_scan.tif" "B2");
    vm_compute; reflexivity.
Defined.

Lemma digit36_not_separator c :
  Measure.is_digit36 c = true -> Ascii.eqb c "_" = false /\ Ascii.eqb c "/" = false.
Proof.
  destruct c as [[] [] [] [] [] [] [] []]; vm_compute; intros H;
    solve [discriminate H | split; reflexivity].
Qed.

Lemma digits36_no_separator s :
  Measure.all_digits36 s = true ->
  Measure.occurs "_" s = false /\ Measure.occurs "/" s = false.
Proof.
  induction s as [|c s IH]; cbn; [now split|].
  intros H. apply andb_prop in H. destruct H as [Hc Hs].
  destruct (digit36_not_separator c Hc) as [-> ->]. now apply IH.
Qed.

Lemma occurs_app c a : forall b,
  Measure.occurs c (a ++ b) = Measure.occurs c a || Measure.occurs c b.
Proof.
  induction a as [|d a IH]; intros b; cbn; [reflexivity|].
  now rewrite IH, orb_assoc.
Qed.

Lemma length_app_string a : forall b,
  String.length (a ++ b) = (String.length a + String.length b)%nat.
Proof.
  induction a as [|c a IH]; intros b; cbn; [reflexivity | now rewrite IH].
Qed.

Lemma append_inj_r a : forall b s, a ++ s = b ++ s -> a = b.
Proof.
  induction a as [|c a IH]; intros [|d b] s E; cbn in E.
  - reflexivity.
  - apply (f_equal String.length) in E. cbn in E. rewrite length_app_string in E. lia.
  - apply (f_equal String.length) in E. cbn in E. rewrite length_app_string in E. lia.
  - injection E as -> E. f_equal. now apply (IH b s).
Qed.

(** A string is cut in one way only at a separator that its last piece
    does not hold. *)
Lemma cut_at_last c a1 : forall a2 d1 d2,
  Measure.occurs c d1 = false ->
  Measure.occurs c d2 = false ->
  a1 ++ String c d1 = a2 ++ String c d2 ->
  a1 = a2 /\ d1 = d2.
Proof.
  induction a1 as [|x a1 IH]; intros [|y a2] d1 d2 H1 H2 E; cbn in E.
  - injection E as E. now split.
  - injection E as <- E. rewrite E, occurs_app in H1. cbn in H1.
    rewrite Ascii.eqb_refl, orb_true_r in H1. discriminate H1.
  - injection E as -> E. rewrite <- E, occurs_app in H2. cbn in H2.
    rewrite Ascii.eqb_refl, orb_true_r in H2. discriminate H2.
  - injection E as -> E. destruct (IH a2 d1 d2 H1 H2 E) as [-> ->]. now split.
Qed.

Lemma task_id_cut b : forall d,
  b ++ "_tiff_" ++ d = (b ++ "_tiff") ++ String "_" d.
Proof.
  induction b as [|c b IH]; intros d; cbn; [reflexivity | now rewrite <- IH].
Qed.

(** X3.  A task id names its batch.  Two ids are the same only for the same
    batch id and the same absolute value of the hash: tasks of different
    batches never share an id, whatever the batch ids and keys are. *)
Theorem generateTaskId_names_batch (b1 k1 b2 k2 : string) :
  generateTaskId b1 k1 = generateTaskId b2 k2 ->
  b1 = b2 /\ Z.abs (hash_loop k1 0) = Z.abs (hash_loop k2 0).
Proof.
  unfold generateTaskId, simpleHash. rewrite !task_id_cut. intros E.
  destruct (toString36_digits (Z.abs (hash_loop k1 0))) as [Hd1 _].
  destruct (toString36_digits (Z.abs (hash_loop k2 0))) as [Hd2 _].
  apply digits36_no_separator in Hd1, Hd2.
  destruct (cut_at_last _ _ _ _ _ (proj1 Hd1) (proj1 Hd2) E) as [Eb Ed].
  split.
  - now apply append_inj_r in Eb.
  - apply toString36_inj in Ed; [exact Ed | apply Z.abs_nonneg | apply Z.abs_nonneg].
Qed.

Lemma generateTaskId_names_batch_witness :
  "B1" = "B1"
  /\ Z.abs (hash_loop "s/B1/Aa.tiff" 0) = Z.abs (hash_loop "s/B1/BB.tiff" 0).
Proof.
  apply (generateTaskId_names_batch "B1" "s/B1/Aa.tiff" "B1" "s/B1/BB.tiff").
  vm_compute. reflexivity.
Defined.

End TaskIdExtras.

(* ------------------------------------------------------------------ *)
(** ** More on a wake of [executeBatch] *)

Section ExecuteBatchExtras.

Import TiffConversionPhase.
Local Open Scope list_scope.

Variables (config : Config) (env : Env) (api : Fly.Api) (clock : nat -> string).

Lemma selected_is_pending state k r :
  nth_error (pendingTasks state config) k = Some r ->
  exists x, Store.get (BatchState.current_phase_tasks state) r = Some x
            /\ Task.status x = pending.
Proof.
  intros Hk. apply nth_error_In, pendingTasks_pending in Hk.
  destruct Hk as [Hs _]. now apply status_is_true in Hs.
Qed.

(** What an answer can change of a task. *)
Lemma after_spawn_frame x answer now :
  let x' := Spec.after_spawn x answer now in
  x' = x
  \/ (Task.status x' = processing
      /\ Task.task_id x' = Task.task_id x
      /\ Task.input_r2_key x' = Task.input_r2_key x
      /\ Task.input_file_name x' = Task.input_file_name x
      /\ Task.retry_count x' = Task.retry_count x
      /\ Task.output_r2_key x' = Task.output_r2_key x
      /\ Task.output_file_name x' = Task.output_file_name x
      /\ Task.output_file_size x' = Task.output_file_size x
      /\ Task.completed_at x' = Task.completed_at x
      /\ Task.error x' = Task.error x).
Proof.
  destruct answer as [why | [|] status text [id|]]; cbn; auto.
  right. repeat split.
Qed.

(** X4.  A wake only starts tasks.  It keeps the keys of the task map (no task
    is added, removed or renamed); it leaves every task that is not
    [pending] exactly as it is; and a task it changes was [pending], is
    now [processing], and differs from before in [status], [started_at]
    and [fly_machine_id] only. *)
Theorem executeBatch_only_starts (state : BatchState.t) :
  let out := executeBatch state config env api clock in
  let o := BatchState.current_phase_tasks state in
  let o' := BatchState.current_phase_tasks (state_after out) in
  map fst o' = map fst o
  /\ (forall r x,
        Store.get o r = Some x -> Task.status x <> pending -> Store.get o' r = Some x)
  /\ (forall r x,
        Store.get o r = Some x ->
        exists x',
          Store.get o' r = Some x'
          /\ (x' = x
              \/ (Task.status x = pending
                  /\ Task.status x' = processing
                  /\ Task.task_id x' = Task.task_id x
                  /\ Task.input_r2_key x' = Task.input_r2_key x
                  /\ Task.input_file_name x' = Task.input_file_name x
                  /\ Task.retry_count x' = Task.retry_count x
                  /\ Task.output_r2_key x' = Task.output_r2_key x
                  /\ Task.output_file_name x' = Task.output_file_name x
                  /\ Task.output_file_size x' = Task.output_file_size x
                  /\ Task.completed_at x' = Task.completed_at x
                  /\ Task.error x' = Task.error x))).
Proof.
  cbv zeta.
  destruct (executeBatch_spec config env api clock state)
    as (_ & Hkeys & _ & Hout & Hin).
  split; [exact Hkeys|]. split.
  - intros r x Hx Hs.
    destruct (in_dec Nat.eq_dec r (pendingTasks state config)) as [Hr | Hr].
    + apply In_nth_error in Hr. destruct Hr as [k Hk].
      destruct (selected_is_pending _ _ _ Hk) as (y & Hy & Hp). congruence.
    + now rewrite (Hout _ Hr).
  - intros r x Hx.
    destruct (in_dec Nat.eq_dec r (pendingTasks state config)) as [Hr | Hr].
    + apply In_nth_error in Hr. destruct Hr as [k Hk].
      destruct (selected_is_pending _ _ _ Hk) as (y & Hy & Hp).
      assert (y = x) by congruence. subst y.
      eexists. split; [apply (Hin _ _ _ Hk Hx)|].
      destruct (after_spawn_frame x (api k (machineConfig x state config env)) (clock k))
        as [E | E]; [now left | right; tauto].
    + exists x. split; [now rewrite (Hout _ Hr) | now left].
Qed.

Lemma settles_not_fulfilled x answer now :
  Spec.settles answer <> fulfilled -> Spec.after_spawn x answer now = x.
Proof.
  destruct answer as [why | [|] status text [id|]]; cbn; intros H;
    solve [reflexivity | contradiction H; reflexivity].
Qed.

Lemma state_of_same_fields state state' :
  Spec.same_batch_fields state state' ->
  BatchState.current_phase_tasks state' = BatchState.current_phase_tasks state ->
  state' = state.
Proof.
  unfold Spec.same_batch_fields. intros H E. rewrite H, E. now destruct state.
Qed.

Lemma requests_length state :
  List.length (requests (executeBatch state config env api clock))
  = List.length (pendingTasks state config).
Proof.
  destruct (executeBatch_spec config env api clock state) as (_ & _ & Hreq & _).
  rewrite Hreq, length_map. apply length_deref.
  apply Forall_forall. intros r Hr. now apply pendingTasks_pending in Hr.
Qed.

(** X5.  A wake in which no spawn succeeds changes nothing: when every promise
    of the wake is rejected (the API unreachable, refusing, or answering
    with a body that is not JSON), the state after the wake is the state
    before it, although one request was sent for each selected task. *)
Theorem executeBatch_all_rejected (state : BatchState.t) :
  (forall k r,
      nth_error (pendingTasks state config) k = Some r ->
      Spec.spawn_settles state config env api k r <> fulfilled) ->
  let out := executeBatch state config env api clock in
  state_after out = state
  /\ List.length (requests out) = List.length (pendingTasks state config).
Proof.
  intros Hrej. cbv zeta. split; [|apply requests_length].
  destruct (executeBatch_spec config env api clock state)
    as (Hsame & Hkeys & _ & Hout & Hin).
  apply state_of_same_fields; [exact Hsame|].
  apply store_ext; [exact Hkeys|]. intros r.
  destruct (in_dec Nat.eq_dec r (pendingTasks state config)) as [Hr | Hr].
  - apply In_nth_error in Hr. destruct Hr as [k Hk].
    destruct (selected_is_pending _ _ _ Hk) as (x & Hx & _).
    rewrite (Hin _ _ _ Hk Hx), Hx. f_equal.
    apply settles_not_fulfilled.
    rewrite <- (spawn_settles_spec config env api state k r x Hx). now apply Hrej.
  - now apply Hout.
Qed.

Lemma pendingTasks_nil_cases state :
  BATCH_SIZE_TIFF_CONVERSION config = 0
  \/ Forall (fun x => Task.status x <> pending) (Spec.tasks state) ->
  pendingTasks state config = [].
Proof.
  intros [H0 | Hnone]; unfold pendingTasks; cbv zeta.
  - rewrite H0, slice0_firstn by lia. reflexivity.
  - replace (filter (Store.status_is (BatchState.current_phase_tasks state) pending)
               (Store.values (BatchState.current_phase_tasks state))) with (@nil ref).
    + unfold JS.slice0. apply firstn_nil.
    + symmetry.
      induction (Store.values (BatchState.current_phase_tasks state)) as [|r l IH];
        [reflexivity|].
      cbn [filter].
      destruct (Store.status_is (BatchState.current_phase_tasks state) pending r) eqn:E;
        [|exact IH].
      apply status_is_true in E. destruct E as (x & Hx & Hs).
      unfold Spec.tasks in Hnone. rewrite Forall_get in Hnone.
      now destruct (Hnone r x Hx).
Qed.

(** X6.  Nothing to spawn.  With a batch size of 0, or with no [pending] task,
    a wake sends no request and leaves the state as it is; it answers
    [true] unless every task is [completed] or [failed].  (So a batch size
    of 0 leaves a batch with a pending task where it is, wake after
    wake.) *)
Theorem executeBatch_nothing_to_spawn (state : BatchState.t) :
  BATCH_SIZE_TIFF_CONVERSION config = 0
  \/ Forall (fun x => Task.status x <> pending) (Spec.tasks state) ->
  let out := executeBatch state config env api clock in
  requests out = []
  /\ state_after out = state
  /\ more_work out = negb (allDone state)
  /\ (Exists (fun x => Spec.unfinished (Task.status x)) (Spec.tasks state) ->
      more_work out = true).
Proof.
  intros H. cbv zeta. pose proof (pendingTasks_nil_cases state H) as Hnil.
  pose proof (requests_length state) as Hlen. rewrite Hnil in Hlen.
  destruct (executeBatch_cases config env api clock state)
    as [(_ & Hmore & Hst) | (r0 & rest & Hps & _)]; [|congruence].
  repeat apply conj.
  - now destruct (requests (executeBatch state config env api clock)).
  - exact Hst.
  - exact Hmore.
  - intros He. rewrite Hmore. apply Exists_unfinished in He.
    destruct (allDone state) eqn:E; [|reflexivity].
    apply (allDone_spec clock) in E. contradiction.
Qed.

Lemma pending_refs_length state :
  List.length (filter (Store.status_is (BatchState.current_phase_tasks state) pending)
                 (Store.values (BatchState.current_phase_tasks state)))
  = List.length (filter Spec.is_pending (Spec.tasks state)).
Proof.
  rewrite <- (length_deref (BatchState.current_phase_tasks state)).
  - rewrite deref_filter, deref_values. reflexivity.
  - apply Forall_forall. intros r Hr. apply filter_In in Hr. now apply in_values.
Qed.

(** X7.  A wake that can start everything does.  When the API creates every
    machine it is asked for and the batch size is at least the number of
    [pending] tasks, one request is sent per pending task and no task is
    [pending] after the wake. *)
Theorem executeBatch_all_spawned (state : BatchState.t) :
  (forall k request, Spec.settles (api k request) = fulfilled) ->
  Z.of_nat (List.length (filter Spec.is_pending (Spec.tasks state)))
  <= BATCH_SIZE_TIFF_CONVERSION config ->
  let out := executeBatch state config env api clock in
  Forall (fun x => Task.status x <> pending) (Spec.tasks (state_after out))
  /\ List.length (requests out)
     = List.length (filter Spec.is_pending (Spec.tasks state)).
Proof.
  intros Hok Hsize. cbv zeta.
  assert (Hps : pendingTasks state config
                = filter (Store.status_is (BatchState.current_phase_tasks state) pending)
                    (Store.values (BatchState.current_phase_tasks state))).
  { unfold pendingTasks. cbv zeta. rewrite slice0_firstn by lia.
    apply firstn_all2. rewrite pending_refs_length. lia. }
  split.
  - destruct (executeBatch_spec config env api clock state)
      as (_ & _ & _ & Hout & Hin).
    unfold Spec.tasks. apply Forall_get. intros r x' Hx' Hs.
    destruct (in_dec Nat.eq_dec r (pendingTasks state config)) as [Hr | Hr].
    + apply In_nth_error in Hr. destruct Hr as [k Hk].
      destruct (selected_is_pending _ _ _ Hk) as (x & Hx & _).
      rewrite (Hin _ _ _ Hk Hx) in Hx'. injection Hx' as <-.
      destruct (after_spawn_fulfilled x _ (clock k) (Hok k (machineConfig x state config env)))
        as (Hp & _). congruence.
    + rewrite (Hout _ Hr) in Hx'. apply Hr. rewrite Hps. apply filter_In. split.
      * apply in_values. eapply get_Some_lt; eauto.
      * apply status_is_true. eauto.
  - now rewrite requests_length, Hps, pending_refs_length.
Qed.

(** X8.  No task is asked for twice.  The tasks selected in a wake are distinct
    objects, and a task whose spawn succeeded is not selected by a wake on
    the state that this one left, whatever its batch size. *)
Theorem executeBatch_no_respawn (state : BatchState.t) :
  let out := executeBatch state config env api clock in
  NoDup (pendingTasks state config)
  /\ (forall k r config',
        nth_error (pendingTasks state config) k = Some r ->
        Spec.spawn_settles state config env api k r = fulfilled ->
        ~ In r (pendingTasks (state_after out) config')).
Proof.
  cbv zeta. split; [apply pendingTasks_NoDup|].
  intros k r config' Hk Hful Hin'.
  destruct (executeBatch_spec config env api clock state) as (_ & _ & _ & _ & Hin).
  destruct (selected_is_pending _ _ _ Hk) as (x & Hx & _).
  rewrite (spawn_settles_spec config env api state k r x Hx) in Hful.
  apply pendingTasks_pending in Hin'. destruct Hin' as [Hs _].
  apply status_is_true in Hs. destruct Hs as (y & Hy & Hp).
  rewrite (Hin _ _ _ Hk Hx) in Hy. injection Hy as <-.
  destruct (after_spawn_fulfilled x _ (clock k) Hful) as (Hproc & _). congruence.
Qed.

Lemma status_refs_length state s :
  List.length (filter (Store.status_is (BatchState.current_phase_tasks state) s)
                 (Store.values (BatchState.current_phase_tasks state)))
  = List.length (filter (fun x => TaskStatus_eqb (Task.status x) s) (Spec.tasks state)).
Proof.
  rewrite <- (length_deref (BatchState.current_phase_tasks state)).
  - rewrite deref_filter, deref_values. reflexivity.
  - apply Forall_forall. intros r Hr. apply filter_In in Hr. now apply in_values.
Qed.

Lemma TaskStatus_eqb_eq a b : TaskStatus_eqb a b = true <-> a = b.
Proof.
  destruct a, b; cbn; split; intros H; solve [reflexivity | discriminate H].
Qed.

(** The count of a status is positive exactly when a task has it. *)
Lemma count_status_pos s state :
  0 < Measure.count_status s state
  <-> Exists (fun x => Task.status x = s) (Spec.tasks state).
Proof.
  unfold Measure.count_status.
  induction (Spec.tasks state) as [|x l IH]; cbn [filter].
  - cbn. split; [lia | intros H; inversion H].
  - destruct (TaskStatus_eqb (Task.status x) s) eqn:E.
    + apply TaskStatus_eqb_eq in E. cbn [List.length]. split; [now left | lia].
    + rewrite IH. split; [now right|].
      intros H. inversion H as [? ? Hx | ? ? Hl]; subst; [exfalso | exact Hl].
      destruct (Task.status x); discriminate E.
Qed.

(** X9.  [countProcessing] counts the tasks that are [processing], and it is
    the count that decides a wake without pending tasks: such a wake
    answers [true] exactly when [countProcessing] is positive. *)
Theorem countProcessing_decides_waiting (state : BatchState.t) :
  countProcessing state = Measure.count_status processing state
  /\ 0 <= countProcessing state <= Z.of_nat (List.length (Spec.tasks state))
  /\ (Forall (fun x => Task.status x <> pending) (Spec.tasks state) ->
      (more_work (executeBatch state config env api clock) = true
       <-> 0 < countProcessing state)).
Proof.
  assert (Hc : countProcessing state = Measure.count_status processing state).
  { unfold countProcessing, Measure.count_status. cbv zeta.
    now rewrite status_refs_length. }
  split; [exact Hc|]. split.
  - rewrite Hc. unfold Measure.count_status.
    pose proof (filter_length_le (fun x => TaskStatus_eqb (Task.status x) processing)
                  (Spec.tasks state)). lia.
  - intros Hnone. rewrite Hc, count_status_pos.
    pose proof (pendingTasks_nil_cases state (or_intror Hnone)) as Hnil.
    destruct (executeBatch_cases config env api clock state)
      as [(_ & Hmore & _) | (r0 & rest & Hps & _)]; [|congruence].
    rewrite Hmore, negb_true_iff, <- not_true_iff_false, (allDone_spec clock).
    rewrite <- Exists_unfinished. rewrite !Exists_exists. rewrite Forall_forall in Hnone.
    split; intros (x & Hin & Hx); exists x; (split; [exact Hin|]).
    + destruct Hx as [Hx | Hx]; [now destruct (Hnone x Hin) | exact Hx].
    + now right.
Qed.

Lemma filter_length_map {A} (P : A -> bool) (l : list A) : forall l',
  map P l' = map P l ->
  List.length (filter P l') = List.length (filter P l).
Proof.
  induction l as [|x l IH]; intros [|x' l'] E; cbn in E; try discriminate E;
    [reflexivity|].
  injection E as Ex E. cbn [filter]. rewrite Ex.
  destruct (P x); cbn [List.length]; now rewrite (IH l' E).
Qed.

Lemma tasks_map_ext (f : Task.t -> bool) (o o' : TaskMap) :
  List.length o' = List.length o ->
  (forall r x x', Store.get o r = Some x -> Store.get o' r = Some x' -> f x' = f x) ->
  map f (map snd o') = map f (map snd o).
Proof.
  intros Hlen H. apply nth_error_ext. intros n.
  rewrite !nth_error_map.
  change (option_map snd (nth_error o n)) with (Store.get o n).
  change (option_map snd (nth_error o' n)) with (Store.get o' n).
  destruct (Store.get o n) as [x|] eqn:E, (Store.get o' n) as [x'|] eqn:E'; cbn.
  - f_equal. eapply H; eauto.
  - apply get_Some_lt in E. rewrite <- Hlen in E.
    apply get_lt_Some in E. destruct E as [y Hy]. congruence.
  - apply get_Some_lt in E'. rewrite Hlen in E'.
    apply get_lt_Some in E'. destruct E' as [y Hy]. congruence.
  - reflexivity.
Qed.

(** X10.  A wake keeps the counters in step with the map: when
    [tasks_completed] and [tasks_failed] count the completed and the
    failed tasks before a wake, they do after it. *)
Theorem executeBatch_keeps_counters (state : BatchState.t) :
  Measure.counters_agree state ->
  Measure.counters_agree (state_after (executeBatch state config env api clock)).
Proof.
  destruct (executeBatch_spec config env api clock state)
    as (Hsame & Hkeys & _ & Hout & Hin).
  assert (Hcount : forall s, Spec.terminal s ->
            Measure.count_status s (state_after (executeBatch state config env api clock))
            = Measure.count_status s state).
  { intros s Hs. unfold Measure.count_status, Spec.tasks. f_equal.
    apply filter_length_map. apply tasks_map_ext.
    - now apply length_keys.
    - intros r x x' Hx Hx'.
      destruct (in_dec Nat.eq_dec r (pendingTasks state config)) as [Hr | Hr].
      + apply In_nth_error in Hr. destruct Hr as [k Hk].
        destruct (selected_is_pending _ _ _ Hk) as (y & Hy & Hp).
        assert (y = x) by congruence. subst y.
        rewrite (Hin _ _ _ Hk Hx) in Hx'. injection Hx' as <-.
        destruct (after_spawn_frame x (api k (machineConfig x state config env)) (clock k))
          as [E | (E & _)]; [now rewrite E|].
        cbv zeta in E. rewrite E, Hp.
        destruct Hs as [-> | ->]; reflexivity.
      + rewrite (Hout _ Hr), Hx in Hx'. now injection Hx' as <-. }
  unfold Measure.counters_agree. intros [Hc Hf].
  rewrite !Hcount by (unfold Spec.terminal; tauto).
  unfold Spec.same_batch_fields in Hsame. rewrite Hsame. cbn. now split.
Qed.

End ExecuteBatchExtras.

(* ------------------------------------------------------------------ *)
(** ** Callbacks and the counters *)

Section CounterExtras.

Import TiffConversionPhase.
Local Open Scope list_scope.

Lemma count_update (P : Task.t -> bool) o : forall r x y,
  Store.get o r = Some x ->
  Z.of_nat (List.length (filter P (map snd (Store.update o r (fun _ => y)))))
  = Z.of_nat (List.length (filter P (map snd o))) - Z.b2z (P x) + Z.b2z (P y).
Proof.
  induction o as [|[k z] o IH]; intros [|r] x y H; try discriminate H.
  - cbv in H. injection H as ->. cbn [Store.update map filter snd].
    destruct (P x), (P y); cbn [List.length Z.b2z]; lia.
  - change (Store.get o r = Some x) in H.
    cbn [Store.update map filter snd].
    specialize (IH r x y H).
    destruct (P z); cbn [List.length]; lia.
Qed.

Lemma terminal_counts (l : list Task.t) :
  let c := Z.of_nat (List.length (filter (fun x => TaskStatus_eqb (Task.status x) completed) l)) in
  let f := Z.of_nat (List.length (filter (fun x => TaskStatus_eqb (Task.status x) failed) l)) in
  c + f <= Z.of_nat (List.length l)
  /\ (c + f = Z.of_nat (List.length l)
      <-> Forall (fun x => Spec.terminal (Task.status x)) l).
Proof.
  cbv zeta. induction l as [|x l [IHle IHeq]].
  - cbn. split; [lia | split; [constructor | reflexivity]].
  - cbn [filter]. unfold Spec.terminal in *.
    destruct (Task.status x) eqn:E; cbn [TaskStatus_eqb List.length]; split; try lia;
      split.
    all: try (intros H; exfalso; lia).
    all: try (intros H; inversion H as [|? ? [Hx | Hx] Hl]; subst; congruence).
    + intros H. constructor; [rewrite E; tauto | apply IHeq; lia].
    + intros H. inversion H as [|? ? _ Hl]; subst. apply IHeq in Hl. lia.
    + intros H. constructor; [rewrite E; tauto | apply IHeq; lia].
    + intros H. inversion H as [|? ? _ Hl]; subst. apply IHeq in Hl. lia.
Qed.

(** X11.  Counters in step bound the progress of a phase.  When the counters
    count the completed and failed tasks of the map, their sum is at most
    the number of tasks, and it reaches that number exactly when [allDone]
    holds, the test by which [executeBatch] ends the phase. *)
Theorem counters_bound_and_done (state : BatchState.t) :
  Measure.counters_agree state ->
  0 <= BatchState.tasks_completed state
  /\ 0 <= BatchState.tasks_failed state
  /\ BatchState.tasks_completed state + BatchState.tasks_failed state
     <= Z.of_nat (List.length (Spec.tasks state))
  /\ (BatchState.tasks_completed state + BatchState.tasks_failed state
      = Z.of_nat (List.length (Spec.tasks state))
      <-> allDone state = true).
Proof.
  intros [Hc Hf]. rewrite Hc, Hf. unfold Measure.count_status.
  destruct (terminal_counts (Spec.tasks state)) as [Hle Heq]. cbv zeta in Hle, Heq.
  split; [lia|]. split; [lia|]. split; [exact Hle|].
  rewrite Heq. symmetry. apply (allDone_spec (fun _ => "")).
Qed.

(** X12.  A callback keeps the counters in step exactly when its task was not
    yet done.  For a task object of the map and counters that count the
    completed and failed tasks: after [handleCallback] on that task the
    counters still do so if the task was [pending] or [processing], and no
    longer do so if it was [completed] or [failed].  Either way the keys of
    the map stay and the task ends [completed] or [failed]. *)
Theorem handleCallback_on_counters (state : BatchState.t) (r : ref) (x : Task.t)
    (result : Callback.TiffCallbackResult) (now : string) :
  Measure.counters_agree state ->
  Store.get (BatchState.current_phase_tasks state) r = Some x ->
  let state' := Measure.handleCallback_on r result state now in
  (Measure.counters_agree state' <-> Spec.unfinished (Task.status x))
  /\ map fst (BatchState.current_phase_tasks state')
     = map fst (BatchState.current_phase_tasks state)
  /\ (exists x', Store.get (BatchState.current_phase_tasks state') r = Some x'
                 /\ Spec.terminal (Task.status x')).
Proof.
  intros [Hc Hf] Hx. cbv zeta.
  unfold Measure.handleCallback_on. rewrite Hx. unfold handleCallback.
  unfold Measure.counters_agree, Measure.count_status, Spec.tasks,
    Spec.unfinished, Spec.terminal in *.
  destruct (String.eqb (Callback.status result) "success");
    destruct state as [bid st qm ph o tot done failed sa ua ca er rc];
    cbn [BatchState.current_phase_tasks BatchState.set_tasks
         BatchState.set_tasks_completed BatchState.set_tasks_failed
         BatchState.tasks_completed BatchState.tasks_failed] in *;
    rewrite !(count_update _ o r x _ Hx), keys_update, get_update_same, Hx;
    cbn [option_map];
    (split; [| split; [reflexivity | eexists; split; [reflexivity | cbn; tauto]]]);
    destruct x as [tid s k n rt sta fm ok on os cat e]; cbn;
    destruct s; cbn; split; intros H;
    solve [ lia | tauto | destruct H as [H | H]; discriminate H
          | destruct H; lia ].
Qed.

End CounterExtras.

(* ------------------------------------------------------------------ *)
(** ** The HTTP handler beyond the callback route *)

Section WorkerExtras.

Import Worker.
Local Open Scope list_scope.

Context {W : Type} (ns : Namespace W).

Lemma startsWith_app p : forall s, JS.startsWith (p ++ s)%string p = true.
Proof.
  unfold JS.startsWith.
  induction p as [|a p IH]; intros s; cbn.
  - now destruct s.
  - destruct (ascii_dec a a) as [_ | Hne]; [apply IH | now destruct Hne].
Qed.

Lemma append_nil_r s : (s ++ "")%string = s.
Proof.
  induction s as [|c s IH]; cbn; [reflexivity | now rewrite IH].
Qed.

Lemma append_assoc a : forall b c, ((a ++ b) ++ c)%string = (a ++ (b ++ c))%string.
Proof.
  induction a as [|x a IH]; intros b c; cbn; [reflexivity | now rewrite IH].
Qed.

(** A text without the separator is one piece ... *)
Lemma split_from_no_sep sep s : forall cur,
  Measure.occurs sep s = false -> JS.split_from sep s cur = [(cur ++ s)%string].
Proof.
  induction s as [|c s IH]; intros cur H; cbn in *.
  - now rewrite append_nil_r.
  - apply orb_false_iff in H. destruct H as [Hc Hs]. rewrite Hc.
    rewrite (IH _ Hs), append_assoc. reflexivity.
Qed.

(** ... and the first piece of a text ends at its first separator. *)
Lemma split_from_app sep a : forall rest cur,
  Measure.occurs sep a = false ->
  JS.split_from sep (a ++ String sep rest)%string cur
  = (cur ++ a)%string :: JS.split_from sep rest "".
Proof.
  induction a as [|c a IH]; intros rest cur H; cbn in *.
  - now rewrite Ascii.eqb_refl, append_nil_r.
  - apply orb_false_iff in H. destruct H as [Hc Hs]. rewrite Hc.
    rewrite (IH _ _ Hs), append_assoc. reflexivity.
Qed.

Lemma split_callback_url_path batchId taskId :
  Measure.occurs "/" batchId = false ->
  Measure.occurs "/" taskId = false ->
  JS.split (Measure.callback_url_path batchId taskId) "/"
  = [""; "callback"; batchId; taskId]%string.
Proof.
  intros Hb Ht. unfold Measure.callback_url_path.
  rewrite split_callback. unfold JS.split.
  change (batchId ++ "/" ++ taskId)%string with (batchId ++ String "/" taskId)%string.
  rewrite (split_from_app _ _ _ _ Hb), (split_from_no_sep _ _ _ Ht). reflexivity.
Qed.

Lemma generateTaskId_path_safe batchId r2Key :
  Measure.occurs "/" batchId = false ->
  Measure.occurs "/" (TaskId.generateTaskId batchId r2Key) = false
  /\ TaskId.generateTaskId batchId r2Key <> ""%string.
Proof.
  intros Hb. unfold TaskId.generateTaskId, TaskId.simpleHash. split.
  - rewrite !occurs_app, Hb.
    destruct (toString36_digits (Z.abs (TaskId.hash_loop r2Key 0))) as [Hd _].
    apply digits36_no_separator in Hd. destruct Hd as [_ ->]. reflexivity.
  - destruct batchId; discriminate.
Qed.

(** X13.  The callback URL comes back to its task.  For a batch id that is not
    empty and holds no [/], the URL that [spawnFlyMachine] gives the
    worker of a task is [ORCHESTRATOR_URL] followed by
    [/callback/{batch_id}/{task_id}], and a [POST] of a JSON body to that
    path makes the handler call the orchestrator of that batch with that
    task id and that body, and with nothing else: it answers 200
    [{ok:true}] when the call returns and 500 when it throws. *)
Theorem callback_url_round_trip (batchId r2Key : string) (payload : json)
    (now : string) (w : W) :
  batchId <> ""%string ->
  Measure.occurs "/" batchId = false ->
  let taskId := TaskId.generateTaskId batchId r2Key in
  (forall x state config env,
      Task.task_id x = taskId ->
      BatchState.batch_id state = batchId ->
      Fly.CALLBACK_URL (TiffConversionPhase.machineConfig x state config env)
      = (ORCHESTRATOR_URL config ++ Measure.callback_url_path batchId taskId)%string)
  /\ fetch ns {| method := "POST";
                pathname := Measure.callback_url_path batchId taskId;
                json_body := Return payload |} now w
     = match handleCallback ns batchId taskId payload w with
       | (Return _, w') => (Measure.ok_response, w')
       | (Throw e, w') => (Measure.error_response e, w')
       end.
Proof.
  intros Hne Hb. cbv zeta.
  destruct (generateTaskId_path_safe batchId r2Key Hb) as [Ht Htne].
  split.
  - intros x state config env Hx Hs. cbn. now rewrite Hx, Hs.
  - rewrite fetch_callback_branch;
      [| reflexivity | apply (startsWith_app "/callback/")].
    cbn [pathname json_body]. cbv zeta.
    rewrite (split_callback_url_path _ _ Hb Ht). cbn [nth_error JS.falsy].
    apply String.eqb_neq in Hne, Htne. rewrite Hne, Htne. cbn [orb].
    destruct (handleCallback ns batchId _ payload w) as [[[] | e] w']; reflexivity.
Qed.

Lemma incl_cors_json : incl corsHeaders jsonHeaders.
Proof. unfold jsonHeaders. apply incl_appl, incl_refl. Qed.

(** X14.  Every response carries the CORS headers: the preflight answer, the
    answers of the routes, the 404 and the 500 of the [catch] alike. *)
Theorem fetch_always_cors (request : Request) (now : string) (w : W) :
  incl corsHeaders (headers (fst (fetch ns request now w))).
Proof.
  unfold fetch.
  destruct (String.eqb (method request) "OPTIONS"); [apply incl_refl|].
  unfold route.
  destruct (String.eqb (pathname request) "/health"); [apply incl_cors_json|].
  destruct (JS.startsWith (pathname request) "/status/").
  { destruct (JS.falsy (nth_error (JS.split (pathname request) "/") 2));
      [apply incl_cors_json|].
    destruct (do_fetch ns _ "GET" "https://internal/status" w) as [[resp | e] w1];
      [destruct (do_json resp)|]; apply incl_cors_json. }
  destruct (JS.startsWith (pathname request) "/callback/"
            && String.eqb (method request) "POST").
  { destruct (JS.falsy (nth_error (JS.split (pathname request) "/") 2)
              || JS.falsy (nth_error (JS.split (pathname request) "/") 3));
      [apply incl_cors_json|].
    destruct (json_body request) as [payload | e]; [|apply incl_cors_json].
    destruct (handleCallback ns _ _ payload w) as [[[] | e] w1]; apply incl_cors_json. }
  destruct (JS.startsWith (pathname request) "/admin/reset/"
            && String.eqb (method request) "POST"); [|apply incl_refl].
  destruct (JS.falsy (nth_error (JS.split (pathname request) "/") 3));
    [apply incl_cors_json|].
  destruct (do_fetch ns _ "POST" "https://internal/reset" w) as [[resp | e] w1];
    apply incl_cors_json.
Qed.

(** X15.  The handler touches the durable state through at most one call, on the
    Durable Object that the path names.  The state after a request is the
    state before it, or the state left by one [handleCallback] (a [POST]
    with a JSON body, on the batch and task of the path), or by one
    internal [GET /status] or [POST /reset] on the batch of the path. *)
Theorem fetch_calls_once (request : Request) (now : string) (w : W) :
  let parts := JS.split (pathname request) "/" in
  let w' := snd (fetch ns request now w) in
  w' = w
  \/ (exists batchId taskId payload,
         method request = "POST"%string
         /\ nth_error parts 2 = Some batchId
         /\ nth_error parts 3 = Some taskId
         /\ json_body request = Return payload
         /\ w' = snd (handleCallback ns batchId taskId payload w))
  \/ (exists batchId,
         nth_error parts 2 = Some batchId
         /\ w' = snd (do_fetch ns batchId "GET" "https://internal/status" w))
  \/ (exists batchId,
         method request = "POST"%string
         /\ nth_error parts 3 = Some batchId
         /\ w' = snd (do_fetch ns batchId "POST" "https://internal/reset" w)).
Proof.
  cbv zeta. unfold fetch.
  destruct (String.eqb (method request) "OPTIONS"); [now left|].
  unfold route.
  destruct (String.eqb (pathname request) "/health"); [now left|].
  destruct (JS.startsWith (pathname request) "/status/").
  { destruct (nth_error (JS.split (pathname request) "/") 2) as [b|] eqn:E2;
      cbn [JS.falsy]; [|now left].
    destruct (String.eqb b ""); [now left|].
    right. right. left. exists b. split; [reflexivity|].
    destruct (do_fetch ns b "GET" "https://internal/status" w) as [[resp | e] w1];
      [destruct (do_json resp)|]; reflexivity. }
  destruct (JS.startsWith (pathname request) "/callback/"
            && String.eqb (method request) "POST") eqn:Ec.
  { apply andb_prop in Ec. destruct Ec as [_ Em]. apply String.eqb_eq in Em.
    destruct (nth_error (JS.split (pathname request) "/") 2) as [b|] eqn:E2;
      cbn [JS.falsy]; [|now left].
    destruct (String.eqb b ""); [now left|].
    destruct (nth_error (JS.split (pathname request) "/") 3) as [t|] eqn:E3;
      cbn [JS.falsy orb]; [|now left].
    destruct (String.eqb t ""); [now left|]. cbn [orb].
    destruct (json_body request) as [payload | e] eqn:Ej; [|now left].
    right. left. exists b, t, payload. repeat split; auto.
    destruct (handleCallback ns b t payload w) as [[[] | e] w1]; reflexivity. }
  destruct (JS.startsWith (pathname request) "/admin/reset/"
            && String.eqb (method request) "POST") eqn:Ea; [|now left].
  apply andb_prop in Ea. destruct Ea as [_ Em]. apply String.eqb_eq in Em.
  destruct (nth_error (JS.split (pathname request) "/") 3) as [b|] eqn:E3;
    cbn [JS.falsy]; [|now left].
  destruct (String.eqb b ""); [now left|].
  right. right. right. exists b. repeat split; auto.
  destruct (do_fetch ns b "POST" "https://internal/reset" w) as [[resp | e] w1];
    reflexivity.
Qed.

Lemma admin_reset_path path :
  JS.startsWith path "/admin/reset/" = true ->
  String.eqb path "/health" = false
  /\ JS.startsWith path "/status/" = false
  /\ JS.startsWith path "/callback/" = false.
Proof.
  intros H. apply prefix_app in H. destruct H as [s' ->]. repeat split.
Qed.

Lemma status_path path :
  JS.startsWith path "/status/" = true -> String.eqb path "/health" = false.
Proof.
  intros H. apply prefix_app in H. destruct H as [s' ->]. reflexivity.
Qed.

(** X16.  The reset route answers 200 whatever the Durable Object answered.  For
    a [POST] under [/admin/reset/] with a batch id, when the internal
    reset request returns a response, the answer is 200
    [{ok:true, message:"Batch reset"}]; the status and the body of that
    response (a 404 for a batch that does not exist, say) are not read. *)
Theorem admin_reset_ignores_response (request : Request) (now : string) (w : W)
    (batchId : string) (response : DOResponse) (w' : W) :
  method request = "POST"%string ->
  JS.startsWith (pathname request) "/admin/reset/" = true ->
  nth_error (JS.split (pathname request) "/") 3 = Some batchId ->
  batchId <> ""%string ->
  do_fetch ns batchId "POST" "https://internal/reset" w = (Return response, w') ->
  fetch ns request now w
  = ({| status := 200; headers := jsonHeaders;
        body := Stringified (JObj [("ok", JBool true);
                                   ("message", JStr "Batch reset")]) |}, w').
Proof.
  intros Hm Hp H3 Hne Hdo.
  destruct (admin_reset_path _ Hp) as (H1 & H2 & Hc).
  unfold fetch, route. rewrite Hm, H1, H2, Hc, Hp, H3. cbn [JS.falsy andb].
  change (("POST" =? "OPTIONS")%string) with false.
  change (("POST" =? "POST")%string) with true. cbv iota.
  apply String.eqb_neq in Hne. rewrite Hne, Hdo. reflexivity.
Qed.

(** X17.  The status route hands on what the Durable Object answered.  For a
    request of any method but [OPTIONS] under [/status/] with a batch id,
    when the internal status request returns a response with a JSON body,
    the answer has the status of that response and that body. *)
Theorem status_route_passes_through (request : Request) (now : string) (w : W)
    (batchId : string) (response : DOResponse) (data : json) (w' : W) :
  method request <> "OPTIONS"%string ->
  JS.startsWith (pathname request) "/status/" = true ->
  nth_error (JS.split (pathname request) "/") 2 = Some batchId ->
  batchId <> ""%string ->
  do_fetch ns batchId "GET" "https://internal/status" w = (Return response, w') ->
  do_json response = Return data ->
  fetch ns request now w
  = ({| status := do_status response; headers := jsonHeaders;
        body := Stringified data |}, w').
Proof.
  intros Hm Hp H2 Hne Hdo Hj.
  unfold fetch, route. apply String.eqb_neq in Hm, Hne.
  rewrite Hm, (status_path _ Hp), Hp, H2. cbn [JS.falsy].
  rewrite Hne, Hdo, Hj. reflexivity.
Qed.

(** X18.  Only a [POST] reaches the orchestrator through the callback and reset
    routes.  A request of another method under [/callback/] or
    [/admin/reset/] leaves the durable state as it is: the answer is the
    preflight 200 without a body for [OPTIONS], and 404 [Not Found] for
    any other method. *)
Theorem non_post_is_not_routed (request : Request) (now : string) (w : W) :
  method request <> "POST"%string ->
  JS.startsWith (pathname request) "/callback/" = true
  \/ JS.startsWith (pathname request) "/admin/reset/" = true ->
  fetch ns request now w
  = if String.eqb (method request) "OPTIONS"
    then ({| status := 200; headers := corsHeaders; body := Null |}, w)
    else ({| status := 404; headers := corsHeaders; body := Text "Not Found" |}, w).
Proof.
  intros Hm Hp. unfold fetch.
  destruct (String.eqb (method request) "OPTIONS"); [reflexivity|].
  apply String.eqb_neq in Hm. unfold route. rewrite Hm, !andb_false_r.
  assert (H : String.eqb (pathname request) "/health" = false
              /\ JS.startsWith (pathname request) "/status/" = false).
  { destruct Hp as [Hp | Hp].
    - apply prefix_app in Hp. destruct Hp as [s' ->]. now split.
    - now destruct (admin_reset_path _ Hp) as (? & ? & _). }
  destruct H as [-> ->]. reflexivity.
Qed.

End WorkerExtras.

(* ------------------------------------------------------------------ *)
(** ** The queue consumer *)

Section ConsumerExtras.

Import Worker.
Local Open Scope list_scope.

Context {W : Type} (startBatch : Consumer.StartBatch W).

Lemma queue_cons queueMessage rest w :
  Consumer.queue startBatch (queueMessage :: rest) w
  = let r := startBatch (Consumer.batchId queueMessage) queueMessage w in
    let out := Consumer.queue startBatch rest (snd r) in
    (match fst r with
     | Return _ => Consumer.ack
     | Throw _ => Consumer.retry
     end :: fst out, snd out).
Proof.
  cbn [Consumer.queue]. cbv zeta.
  destruct (startBatch (Consumer.batchId queueMessage) queueMessage w) as [[[] | e] w1];
    cbn [fst snd];
    destruct (Consumer.queue startBatch rest w1) as [ds w2]; reflexivity.
Qed.

(** X19.  Every message of a batch is settled once, and a failure does not stop
    the loop.  The consumer gives one disposition per message, in order;
    the [k]-th is [ack] when [startBatch] returned for the [k]-th message
    and [retry] when it threw, in the durable state left by the messages
    before it; the Durable Object it calls is named by the batch id of the
    message, or ["unknown"] for an empty one, and never has the empty
    name. *)
Theorem queue_settles_each (messages : list Queue.QueueMessage) (w : W) :
  let out := Consumer.queue startBatch messages w in
  List.length (fst out) = List.length messages
  /\ (forall k queueMessage,
        nth_error messages k = Some queueMessage ->
        let before := snd (Consumer.queue startBatch (firstn k messages) w) in
        nth_error (fst out) k
        = Some match fst (startBatch (Consumer.batchId queueMessage) queueMessage before) with
               | Return _ => Consumer.ack
               | Throw _ => Consumer.retry
               end)
  /\ (forall queueMessage,
        Consumer.batchId queueMessage <> ""%string
        /\ (Queue.batch_id queueMessage <> ""%string ->
            Consumer.batchId queueMessage = Queue.batch_id queueMessage)).
Proof.
  cbv zeta. split; [|split].
  - revert w. induction messages as [|m rest IH]; intros w; [reflexivity|].
    rewrite queue_cons. cbv zeta. cbn [fst List.length]. now rewrite IH.
  - revert w. induction messages as [|m rest IH]; intros w k queueMessage Hk.
    + destruct k; discriminate Hk.
    + rewrite queue_cons. cbv zeta. cbn [fst]. destruct k as [|k]; cbn [nth_error] in *.
      * injection Hk as <-. reflexivity.
      * cbn [firstn]. rewrite queue_cons. cbv zeta. cbn [snd]. now apply IH.
  - intros queueMessage. unfold Consumer.batchId. cbn [JS.falsy].
    destruct (String.eqb_spec (Queue.batch_id queueMessage) "") as [E | E].
    + split; [discriminate | contradiction].
    + split; [exact E | reflexivity].
Qed.

End ConsumerExtras.

(* ------------------------------------------------------------------ *)
(** ** File names and spawn requests *)

Section NameAndRequestExtras.

Import TiffConversionPhase.
Local Open Scope list_scope.

Lemma length_lower s : String.length (Spec.lower s) = String.length s.
Proof.
  induction s as [|c s IH]; cbn; [reflexivity | now rewrite IH].
Qed.

(** A suffix that fits in the second part of a text is a suffix of that
    part. *)
Lemma suffix_of_app p : forall n s e,
  (p ++ n = s ++ e)%string ->
  (String.length e <= String.length n)%nat ->
  exists s', n = (s' ++ e)%string.
Proof.
  induction p as [|c p IH]; intros n s e E Hlen; cbn in E.
  - now exists s.
  - destruct s as [|d s]; cbn in E.
    + exfalso. apply (f_equal String.length) in E. cbn in E.
      rewrite length_app_string in E. lia.
    + injection E as _ E. now apply (IH n s e).
Qed.

Lemma qualifies_length name : Spec.qualifies name -> (4 <= String.length name)%nat.
Proof.
  intros [(stem & ext & -> & H) | (stem & ext & -> & H)];
    apply (f_equal String.length) in H; rewrite length_lower in H; cbn in H;
    rewrite length_app_string; lia.
Qed.

Lemma qualifies_prefix prefix name :
  Spec.qualifies name -> Spec.qualifies (prefix ++ name).
Proof.
  intros [(stem & ext & -> & H) | (stem & ext & -> & H)]; [left | right];
    exists (prefix ++ stem)%string, ext; (split; [|exact H]);
    clear; induction prefix as [|c p IH]; cbn; congruence.
Qed.

(** X20.  [isTiff] reads the end of the name only.  A name it accepts has at
    least four characters and stays accepted with anything put in front of
    it; and for a name of five characters or more, what is put in front of
    it does not change the answer. *)
Theorem isTiff_reads_the_end (prefix name : string) :
  (isTiff name = true ->
   (4 <= String.length name)%nat /\ isTiff (prefix ++ name) = true)
  /\ ((5 <= String.length name)%nat -> isTiff (prefix ++ name) = isTiff name).
Proof.
  split.
  - intros H. apply isTiff_qualifies in H. split.
    + now apply qualifies_length.
    + apply isTiff_qualifies. now apply qualifies_prefix.
  - intros Hlen.
    destruct (isTiff name) eqn:E.
    + apply isTiff_qualifies. apply qualifies_prefix. now apply isTiff_qualifies.
    + apply not_true_is_false. intros H. apply isTiff_qualifies in H.
      assert (Hq : Spec.qualifies name).
      { destruct H as [(stem & ext & E' & H) | (stem & ext & E' & H)];
          pose proof (f_equal String.length H) as Hl;
          rewrite length_lower in Hl; cbn in Hl;
          destruct (suffix_of_app prefix name stem ext E' ltac:(lia)) as [s' ->];
          [left | right]; now exists s', ext. }
      apply isTiff_qualifies in Hq. congruence.
Qed.

Lemma isTiff_reads_the_end_witness :
  (4 <= String.length "scan.TIFF")%nat /\ isTiff ("archive/box 3/" ++ "scan.TIFF") = true.
Proof.
  apply (proj1 (isTiff_reads_the_end "archive/box 3/" "scan.TIFF")).
  vm_compute. reflexivity.
Defined.

Lemma In_deref o refs x :
  In x (Spec.deref o refs) -> exists r, In r refs /\ Store.get o r = Some x.
Proof.
  unfold Spec.deref. rewrite in_flat_map. intros (r & Hr & Hx). exists r. split; [exact Hr|].
  destruct (Store.get o r) as [y|]; [|destruct Hx].
  destruct Hx as [-> | []]. reflexivity.
Qed.

(** X21.  Every spawn request is for a pending task of the batch and tells the
    worker where it belongs: the task id, its key, the batch id, the
    machine name [tiff-{task_id}], the callback URL of the task, and a
    bucket name that is never empty ([arke-staging] when the environment
    has none). *)
Theorem executeBatch_requests (state : BatchState.t) (config : Config) (env : Env)
    (api : Fly.Api) (clock : nat -> string) (request : Fly.MachineRequest) :
  In request (requests (executeBatch state config env api clock)) ->
  (exists x,
      In x (Spec.tasks state)
      /\ Task.status x = pending
      /\ Fly.TASK_ID request = Task.task_id x
      /\ Fly.INPUT_R2_KEY request = Task.input_r2_key x
      /\ Fly.name request = ("tiff-" ++ Task.task_id x)%string
      /\ Fly.CALLBACK_URL request
         = (ORCHESTRATOR_URL config
              ++ Measure.callback_url_path (BatchState.batch_id state) (Task.task_id x))%string)
  /\ Fly.BATCH_ID request = BatchState.batch_id state
  /\ Fly.R2_BUCKET request <> ""%string
  /\ (R2_BUCKET env = None \/ R2_BUCKET env = Some ""%string ->
      Fly.R2_BUCKET request = "arke-staging"%string).
Proof.
  intros Hin.
  destruct (executeBatch_spec config env api clock state) as (_ & _ & Hreq & _).
  rewrite Hreq in Hin. apply in_map_iff in Hin. destruct Hin as (x & <- & Hx).
  apply In_deref in Hx. destruct Hx as (r & Hr & Hx).
  apply pendingTasks_pending in Hr. destruct Hr as [Hs _].
  apply status_is_true in Hs. destruct Hs as (y & Hy & Hp).
  assert (y = x) by congruence. subst y.
  split; [|split; [reflexivity|split]].
  - exists x. repeat split; auto.
    unfold Spec.tasks. rewrite get_nth_error in Hx. eapply nth_error_In; eauto.
  - cbn. destruct (R2_BUCKET env) as [b|]; cbn; [|discriminate].
    destruct (String.eqb_spec b ""); [discriminate | assumption].
  - cbn. intros [-> | ->]; reflexivity.
Qed.

End NameAndRequestExtras.

(* ------------------------------------------------------------------ *)
(** ** The further properties at concrete inputs *)

Section ExtraWitnesses.

Import TiffConversionPhase.
Local Open Scope list_scope.

Lemma executeBatch_only_starts_witness :
  Store.get
    (BatchState.current_phase_tasks
       (state_after
          (executeBatch MoreExamples.one_of_each (Examples.config 10) Examples.env
             Examples.api_ok Examples.clock))) 2%nat
  = Some (Examples.task "B1_tiff_c" "s/B1/c.tif" "c.tif" completed).
Proof.
  apply (proj1 (proj2 (executeBatch_only_starts (Examples.config 10) Examples.env
                         Examples.api_ok Examples.clock MoreExamples.one_of_each)));
    [reflexivity | discriminate].
Defined.

Lemma executeBatch_all_rejected_witness :
  let out := executeBatch Examples.two_pending (Examples.config 2) Examples.env
               Examples.api_500 Examples.clock in
  state_after out = Examples.two_pending
  /\ List.length (requests out)
     = List.length (pendingTasks Examples.two_pending (Examples.config 2)).
Proof.
  apply (executeBatch_all_rejected (Examples.config 2) Examples.env Examples.api_500
           Examples.clock Examples.two_pending).
  intros k r Hk. destruct k as [|[|k]]; vm_compute in Hk.
  - injection Hk as <-. vm_compute. discriminate.
  - injection Hk as <-. vm_compute. discriminate.
  - destruct k; discriminate Hk.
Defined.

Lemma executeBatch_nothing_to_spawn_witness :
  let out := executeBatch Examples.two_pending (Examples.config 0) Examples.env
               Examples.api_ok Examples.clock in
  requests out = []
  /\ state_after out = Examples.two_pending
  /\ more_work out = negb (allDone Examples.two_pending)
  /\ (Exists (fun x => Spec.unfinished (Task.status x)) (Spec.tasks Examples.two_pending) ->
      more_work out = true).
Proof.
  apply (executeBatch_nothing_to_spawn (Examples.config 0) Examples.env Examples.api_ok
           Examples.clock Examples.two_pending).
  left. reflexivity.
Defined.

Lemma executeBatch_all_spawned_witness :
  let out := executeBatch Examples.two_pending (Examples.config 1000) Examples.env
               Examples.api_ok Examples.clock in
  Forall (fun x => Task.status x <> pending) (Spec.tasks (state_after out))
  /\ List.length (requests out)
     = List.length (filter Spec.is_pending (Spec.tasks Examples.two_pending)).
Proof.
  apply (executeBatch_all_spawned (Examples.config 1000) Examples.env Examples.api_ok
           Examples.clock Examples.two_pending).
  - intros k request. reflexivity.
  - vm_compute. discriminate.
Defined.

Lemma executeBatch_no_respawn_witness :
  ~ In 0%nat
      (pendingTasks
         (state_after
            (executeBatch Examples.two_pending (Examples.config 2) Examples.env
               Examples.api_first_only Examples.clock))
         (Examples.config 2)).
Proof.
  apply (proj2 (executeBatch_no_respawn (Examples.config 2) Examples.env
                  Examples.api_first_only Examples.clock Examples.two_pending)
           0%nat 0%nat (Examples.config 2)); reflexivity.
Defined.

Lemma countProcessing_decides_waiting_witness :
  more_work (executeBatch MoreExamples.none_pending (Examples.config 10) Examples.env
               Examples.api_ok Examples.clock) = true
  <-> 0 < countProcessing MoreExamples.none_pending.
Proof.
  apply (proj2 (proj2 (countProcessing_decides_waiting (Examples.config 10) Examples.env
                         Examples.api_ok Examples.clock MoreExamples.none_pending))).
  repeat constructor; discriminate.
Defined.

Lemma executeBatch_keeps_counters_witness :
  Measure.counters_agree
    (state_after (executeBatch MoreExamples.one_of_each (Examples.config 10) Examples.env
                    Examples.api_ok Examples.clock)).
Proof.
  apply (executeBatch_keeps_counters (Examples.config 10) Examples.env Examples.api_ok
           Examples.clock MoreExamples.one_of_each).
  split; reflexivity.
Defined.

Lemma counters_bound_and_done_witness :
  0 <= BatchState.tasks_completed MoreExamples.one_of_each
  /\ 0 <= BatchState.tasks_failed MoreExamples.one_of_each
  /\ BatchState.tasks_completed MoreExamples.one_of_each
     + BatchState.tasks_failed MoreExamples.one_of_each
     <= Z.of_nat (List.length (Spec.tasks MoreExamples.one_of_each))
  /\ (BatchState.tasks_completed MoreExamples.one_of_each
      + BatchState.tasks_failed MoreExamples.one_of_each
      = Z.of_nat (List.length (Spec.tasks MoreExamples.one_of_each))
      <-> allDone MoreExamples.one_of_each = true).
Proof.
  apply (counters_bound_and_done MoreExamples.one_of_each).
  split; reflexivity.
Defined.

Lemma handleCallback_on_counters_witness :
  let state' :=
    Measure.handleCallback_on 1%nat Examples.callback_success MoreExamples.one_of_each
      "2025-01-15T10:31:09.000Z" in
  (Measure.counters_agree state' <-> Spec.unfinished processing)
  /\ map fst (BatchState.current_phase_tasks state')
     = map fst (BatchState.current_phase_tasks MoreExamples.one_of_each)
  /\ (exists x', Store.get (BatchState.current_phase_tasks state') 1%nat = Some x'
                 /\ Spec.terminal (Task.status x')).
Proof.
  apply (handleCallback_on_counters MoreExamples.one_of_each 1%nat
           (Examples.task "B1_tiff_q" "s/B1/q.tif" "q.tif" processing)
           Examples.callback_success "2025-01-15T10:31:09.000Z").
  - split; reflexivity.
  - reflexivity.
Defined.

Lemma callback_url_round_trip_witness :
  Worker.fetch Examples.logging_namespace
    {| Worker.method := "POST";
       Worker.pathname :=
         Measure.callback_url_path "B1" (TaskId.generateTaskId "B1" "s/B1/a.tiff");
       Worker.json_body := Worker.Return Worker.JNull |}
    "2025-01-15T10:31:09.000Z" []
  = (Measure.ok_response, [("B1", TaskId.generateTaskId "B1" "s/B1/a.tiff")]).
Proof.
  apply (proj2 (callback_url_round_trip Examples.logging_namespace "B1" "s/B1/a.tiff"
                  Worker.JNull "2025-01-15T10:31:09.000Z" []
                  ltac:(discriminate) eq_refl)).
Defined.

Lemma admin_reset_ignores_response_witness :
  Worker.fetch MoreExamples.unknown_batch_namespace
    (MoreExamples.request "POST" "/admin/reset/nope") "2025-01-15T10:31:09.000Z" tt
  = ({| Worker.status := 200; Worker.headers := Worker.jsonHeaders;
        Worker.body :=
          Worker.Stringified
            (Worker.JObj [("ok", Worker.JBool true);
                          ("message", Worker.JStr "Batch reset")]) |}, tt).
Proof.
  apply (admin_reset_ignores_response MoreExamples.unknown_batch_namespace
           (MoreExamples.request "POST" "/admin/reset/nope") "2025-01-15T10:31:09.000Z" tt
           "nope"
           {| Worker.do_status := 404;
              Worker.do_json :=
                Worker.Return (Worker.JObj [("error", Worker.JStr "Batch not found")]) |}
           tt);
    solve [reflexivity | discriminate].
Defined.

Lemma status_route_passes_through_witness :
  Worker.fetch MoreExamples.unknown_batch_namespace
    (MoreExamples.request "DELETE" "/status/nope") "2025-01-15T10:31:09.000Z" tt
  = ({| Worker.status := 404; Worker.headers := Worker.jsonHeaders;
        Worker.body :=
          Worker.Stringified (Worker.JObj [("error", Worker.JStr "Batch not found")]) |},
     tt).
Proof.
  apply (status_route_passes_through MoreExamples.unknown_batch_namespace
           (MoreExamples.request "DELETE" "/status/nope") "2025-01-15T10:31:09.000Z" tt
           "nope"
           {| Worker.do_status := 404;
              Worker.do_json :=
                Worker.Return (Worker.JObj [("error", Worker.JStr "Batch not found")]) |}
           (Worker.JObj [("error", Worker.JStr "Batch not found")]) tt);
    solve [reflexivity | discriminate].
Defined.

Lemma non_post_is_not_routed_witness :
  Worker.fetch Examples.logging_namespace
    (MoreExamples.request "GET" "/callback/B1/B1_tiff_f4dk12")
    "2025-01-15T10:31:09.000Z" []
  = ({| Worker.status := 404; Worker.headers := Worker.corsHeaders;
        Worker.body := Worker.Text "Not Found" |}, []).
Proof.
  apply (non_post_is_not_routed Examples.logging_namespace
           (MoreExamples.request "GET" "/callback/B1/B1_tiff_f4dk12")
           "2025-01-15T10:31:09.000Z" []);
    [discriminate | left; reflexivity].
Defined.

Lemma executeBatch_requests_witness :
  Fly.BATCH_ID
    (machineConfig (Examples.a_tiff pending) Examples.two_pending (Examples.config 1)
       Examples.env)
  = "B1"%string.
Proof.
  apply (executeBatch_requests Examples.two_pending (Examples.config 1) Examples.env
           Examples.api_ok Examples.clock
           (machineConfig (Examples.a_tiff pending) Examples.two_pending (Examples.config 1)
              Examples.env)).
  left. reflexivity.
Defined.

(** Three messages, the second of which makes [startBatch] throw: it is
    retried, and the third is started all the same. *)
Lemma queue_settles_each_witness :
  nth_error
    (fst (Consumer.queue MoreExamples.startBatch_logging
            [Examples.message "B1" []; Examples.message "bad" [];
             Examples.message "" []] []))
    2
  = Some Consumer.ack.
Proof.
  apply (proj1 (proj2 (queue_settles_each MoreExamples.startBatch_logging
                         [Examples.message "B1" []; Examples.message "bad" [];
                          Examples.message "" []] []))
           2%nat (Examples.message "" [])).
  reflexivity.
Defined.

Example queue_three_messages :
  Consumer.queue MoreExamples.startBatch_logging
    [Examples.message "B1" []; Examples.message "bad" []; Examples.message "" []] []
  = ([Consumer.ack; Consumer.retry; Consumer.ack], ["unknown"; "B1"]%string).
Proof. reflexivity. Qed.

End ExtraWitnesses.
